(** * Nexus 9-DoF arm: forward kinematics, static loads and joint physics

    A shallow embedding of the kinematic simulation component
    ([KinematicSimulation]: the animation-frame callback, the render effect
    and the handlers around them) and the properties its specification
    states about it.

    Numbers.  The source computes on JavaScript numbers (IEEE-754 doubles).
    The kinematic chain uses [Math.sin], [Math.cos], [Math.sqrt] and
    [Math.PI]; it is embedded over the real numbers [R], the idealisation in
    which the algebraic properties of the specification are meant.  Every
    division of the source has a non-zero constant divisor, except the safety
    factor [AL6061_YIELD_STRENGTH / stress], whose divisor is positive in
    every evaluation ([published_stress_positive]).

    One test of the source looks at the exact value of a computed number:
    the fill [if(!torqueMap[j.id])] takes a pivot moment of exactly zero for
    a missing entry.  Over [R] that test is exact.  On doubles a moment that
    is zero over the reals may come out as exactly zero or as a rounding
    residue of the order of 1e-15, which keeps its entry.  The statements
    about the torques of the three pivots are made so that they hold
    whichever way the test goes; a statement that needs one outcome says so
    in a hypothesis.  Module [IEEE] embeds the kinematic chain a second time
    over primitive binary64 floats. *)

From Stdlib Require Import PrimFloat.
From Stdlib Require Import Reals Lra Psatz List String.
From stdpp Require Import gmap strings list.
Import ListNotations.

Open Scope R_scope.

(** ** Types *)

Module Vector3.
Record t : Type := mk { x : R; y : R; z : R }.
End Vector3.

(** [type Matrix4x4 = number[][]]: rows of entries. *)
Definition Matrix4x4 : Type := list (list R).

Module FrameData.
Record t : Type := mk {
  id : nat;
  pos : Vector3.t;
  xAxis : Vector3.t;
  yAxis : Vector3.t;
  zAxis : Vector3.t;
  label : string
}.
End FrameData.

Definition AL6061_YIELD_STRENGTH : R := 276.
Definition GRAVITY : R := 9.81.

Module LinkProps.
Record t : Type := mk {
  name : string;
  length : R;
  mass : R;
  od : R;
  thickness : R;
  cogRatio : R
}.
End LinkProps.

Module LINKS.
Definition UPPER : LinkProps.t :=
  LinkProps.mk "Upper Arm" 0.45 1.5 0.050 0.0015 0.5.
Definition FOREARM : LinkProps.t :=
  LinkProps.mk "Forearm" 0.30 1.5 0.040 0.0010 0.5.
Definition HAND : LinkProps.t :=
  LinkProps.mk "Hand" 0.15 1.0 0.040 0.0010 0.5.
End LINKS.

(** The colour string [hsl(${hue}, 80%, 50%)], kept as its three numbers. *)
Inductive Color : Type :=
| hsl (hue saturation lightness : R).

Module StressResult.
Record t : Type := mk {
  location : string;
  torqueStatic : R;
  torqueDynamic : R;
  stressMPa : R;
  safetyFactor : R;
  color : Color
}.
End StressResult.

Inductive Axis : Type := axis_x | axis_y | axis_z.
Inductive Group : Type := Shoulder | Elbow | Wrist | Gripper.

Module JointState.
Record t : Type := mk {
  id : string;
  name : string;
  angle : R;
  targetAngle : R;
  velocity : R;
  min : R;
  max : R;
  axis : Axis;
  group : Group
}.
End JointState.

(** ** Math helpers *)

(** [m[r][c]].  All matrices of the program are 4x4 ([shape4] below); the
    default is never read. *)
Definition get (m : Matrix4x4) (r c : nat) : R := nth c (nth r m []) 0.

Definition identity : Matrix4x4 :=
  [ [1; 0; 0; 0];
    [0; 1; 0; 0];
    [0; 0; 1; 0];
    [0; 0; 0; 1] ].

(** The three nested loops: [result[r][c]] starts at 0 and accumulates
    [m1[r][k] * m2[k][c]] for k = 0..3 in that order. *)
Definition multiplyMatrices (m1 m2 : Matrix4x4) : Matrix4x4 :=
  map (fun r =>
    map (fun c =>
      fold_left (fun acc k => acc + get m1 r k * get m2 k c) (seq 0 4) 0)
      (seq 0 4))
    (seq 0 4).

Definition rotateX (theta : R) : Matrix4x4 :=
  let c := cos theta in
  let s := sin theta in
  [ [1; 0; 0; 0];
    [0; c; - s; 0];
    [0; s; c; 0];
    [0; 0; 0; 1] ].

Definition rotateY (theta : R) : Matrix4x4 :=
  let c := cos theta in
  let s := sin theta in
  [ [c; 0; s; 0];
    [0; 1; 0; 0];
    [- s; 0; c; 0];
    [0; 0; 0; 1] ].

Definition rotateZ (theta : R) : Matrix4x4 :=
  let c := cos theta in
  let s := sin theta in
  [ [c; - s; 0; 0];
    [s; c; 0; 0];
    [0; 0; 1; 0];
    [0; 0; 0; 1] ].

Definition translate (x y z : R) : Matrix4x4 :=
  [ [1; 0; 0; x];
    [0; 1; 0; y];
    [0; 0; 1; z];
    [0; 0; 0; 1] ].

Definition extractFrame (m : Matrix4x4) (id : nat) (label : string)
  : FrameData.t :=
  {| FrameData.id := id;
     FrameData.label := label;
     FrameData.pos := Vector3.mk (get m 0 3) (get m 1 3) (get m 2 3);
     FrameData.xAxis := Vector3.mk (get m 0 0) (get m 1 0) (get m 2 0);
     FrameData.yAxis := Vector3.mk (get m 0 1) (get m 1 1) (get m 2 1);
     FrameData.zAxis := Vector3.mk (get m 0 2) (get m 1 2) (get m 2 2) |}.

(** Area moment of inertia of a hollow circle. *)
Definition calculateInertia (od thickness : R) : R :=
  let id := od - 2 * thickness in
  (PI * (od ^ 4 - id ^ 4)) / 64.

Definition crossProduct (a b : Vector3.t) : Vector3.t :=
  {| Vector3.x := Vector3.y a * Vector3.z b - Vector3.z a * Vector3.y b;
     Vector3.y := Vector3.z a * Vector3.x b - Vector3.x a * Vector3.z b;
     Vector3.z := Vector3.x a * Vector3.y b - Vector3.y a * Vector3.x b |}.

Definition magnitude (v : Vector3.t) : R :=
  sqrt (Vector3.x v * Vector3.x v + Vector3.y v * Vector3.y v
        + Vector3.z v * Vector3.z v).

Definition lerpVector (v1 v2 : Vector3.t) (t : R) : Vector3.t :=
  {| Vector3.x := Vector3.x v1 + (Vector3.x v2 - Vector3.x v1) * t;
     Vector3.y := Vector3.y v1 + (Vector3.y v2 - Vector3.y v1) * t;
     Vector3.z := Vector3.z v1 + (Vector3.z v2 - Vector3.z v1) * t |}.

Definition getStressColor (stressMPa : R) : Color :=
  let ratio := Rmin (stressMPa / AL6061_YIELD_STRENGTH) 1.2 in
  let hue := Rmax 0 (240 - ratio * 240) in
  hsl hue 80 50.

(** ** Component state *)

(** The initial [joints] state of the component. *)
Definition initialJoints : list JointState.t :=
  [ JointState.mk "j1" "Shoulder Z (Yaw)" 0 0 0 (-90) 90 axis_z Shoulder;
    JointState.mk "j2" "Shoulder Y (Pitch)" 0 0 0 (-90) 90 axis_y Shoulder;
    JointState.mk "j3" "Shoulder X (Roll)" 0 0 0 (-45) 45 axis_x Shoulder;
    JointState.mk "j4" "Elbow Z (Yaw)" (-180) (-180) 0 (-270) (-90) axis_z Elbow;
    JointState.mk "j5" "Elbow Y (Pitch)" (-180) (-180) 0 (-270) (-90) axis_y Elbow;
    JointState.mk "j6" "Elbow X (Roll)" 0 0 0 (-45) 45 axis_x Elbow;
    JointState.mk "j7_x" "Wrist X (Roll)" 0 0 0 (-45) 45 axis_x Wrist;
    JointState.mk "j7_y" "Wrist Y (Pitch)" 0 0 0 (-45) 45 axis_y Wrist;
    JointState.mk "j7_z" "Wrist Z (Yaw)" 0 0 0 (-45) 45 axis_z Wrist;
    JointState.mk "j9" "Gripper" 50 50 0 0 100 axis_x Gripper ].

Definition initialLoadMass : R := 5.0.

(** ** Forward kinematics (the first part of the render effect) *)

Definition toRad (deg : R) : R := deg * PI / 180.

(** The frames named in the render effect, in the order they are built. *)
Record Frames : Type := mkFrames {
  frames0 : FrameData.t;
  frameJ1 : FrameData.t;
  frameJ2 : FrameData.t;
  frameJ3 : FrameData.t;
  frameJ4 : FrameData.t;
  frameJ5 : FrameData.t;
  frameJ6 : FrameData.t;
  frameJ7X : FrameData.t;
  frameJ7Y : FrameData.t;
  frameJ7Z : FrameData.t;
  endEffectorFrame : FrameData.t
}.

(** The chain of assignments to [TGlobal]; [a0 .. a8] are
    [joints[0].angle .. joints[8].angle], in degrees. *)
Definition forwardKinematics (a0 a1 a2 a3 a4 a5 a6 a7 a8 : R) : Frames :=
  let TGlobal := identity in
  let frames0 := extractFrame TGlobal 0 "Base" in
  let TGlobal := multiplyMatrices TGlobal (rotateZ (toRad a0)) in
  let frameJ1 := extractFrame TGlobal 1 "J1 (Sh_Z)" in
  let TGlobal := multiplyMatrices TGlobal (rotateY (toRad a1)) in
  let frameJ2 := extractFrame TGlobal 2 "J2 (Sh_Y)" in
  let TGlobal := multiplyMatrices TGlobal (rotateX (toRad a2)) in
  let frameJ3 := extractFrame TGlobal 3 "J3 (Sh_X)" in
  let TGlobal :=
    multiplyMatrices TGlobal (translate (LinkProps.length LINKS.UPPER) 0 0) in
  let TGlobal := multiplyMatrices TGlobal (rotateZ (toRad a3)) in
  let frameJ4 := extractFrame TGlobal 4 "J4 (Elb_Z)" in
  let TGlobal := multiplyMatrices TGlobal (rotateY (toRad a4)) in
  let frameJ5 := extractFrame TGlobal 5 "J5 (Elb_Y)" in
  let TGlobal := multiplyMatrices TGlobal (rotateX (toRad a5)) in
  let frameJ6 := extractFrame TGlobal 6 "J6 (Elb_X)" in
  let TGlobal :=
    multiplyMatrices TGlobal (translate (LinkProps.length LINKS.FOREARM) 0 0) in
  let TGlobal := multiplyMatrices TGlobal (rotateX (toRad a6)) in
  let frameJ7X := extractFrame TGlobal 7 "J7 (Wr_X)" in
  let TGlobal := multiplyMatrices TGlobal (rotateY (toRad a7)) in
  let frameJ7Y := extractFrame TGlobal 8 "J8 (Wr_Y)" in
  let TGlobal := multiplyMatrices TGlobal (rotateZ (toRad a8)) in
  let frameJ7Z := extractFrame TGlobal 9 "J9 (Wr_Z)" in
  let TGlobal :=
    multiplyMatrices TGlobal (translate (LinkProps.length LINKS.HAND) 0 0) in
  let endEffectorFrame := extractFrame TGlobal 10 "EE" in
  mkFrames frames0 frameJ1 frameJ2 frameJ3 frameJ4 frameJ5 frameJ6
           frameJ7X frameJ7Y frameJ7Z endEffectorFrame.

(** [allFrames]: the frames stored for rendering. *)
Definition allFrames (F : Frames) : list FrameData.t :=
  [ frames0 F;
    frameJ1 F; frameJ2 F; frameJ3 F;
    frameJ4 F; frameJ5 F; frameJ6 F;
    frameJ7X F; frameJ7Y F; frameJ7Z F;
    endEffectorFrame F ].

Definition endEffector (F : Frames) : Vector3.t :=
  FrameData.pos (endEffectorFrame F).

(** [setReach(magnitude(endEffector - frames[0].pos))]. *)
Definition reach (F : Frames) : R :=
  magnitude
    (Vector3.mk
       (Vector3.x (endEffector F) - Vector3.x (FrameData.pos (frames0 F)))
       (Vector3.y (endEffector F) - Vector3.y (FrameData.pos (frames0 F)))
       (Vector3.z (endEffector F) - Vector3.z (FrameData.pos (frames0 F)))).

(** ** Torque and stress (the second part of the render effect) *)

Module Load.
Record t : Type := mk { mass : R; pos : Vector3.t }.
End Load.

(** The accumulator [totalM] after [loads.forEach]. *)
Definition totalMoment (pivot : Vector3.t) (loads : list Load.t) : Vector3.t :=
  fold_left
    (fun totalM L =>
       let r := Vector3.mk (Vector3.x (Load.pos L) - Vector3.x pivot)
                           (Vector3.y (Load.pos L) - Vector3.y pivot)
                           (Vector3.z (Load.pos L) - Vector3.z pivot) in
       let F := Vector3.mk 0 0 (- Load.mass L * GRAVITY) in
       let M := crossProduct r F in
       Vector3.mk (Vector3.x totalM + Vector3.x M)
                  (Vector3.y totalM + Vector3.y M)
                  (Vector3.z totalM + Vector3.z M))
    loads (Vector3.mk 0 0 0).

Definition calculateMoment (pivot : Vector3.t) (loads : list Load.t) : R :=
  magnitude (totalMoment pivot loads).

Definition cogUpper (F : Frames) : Vector3.t :=
  lerpVector (FrameData.pos (frameJ3 F)) (FrameData.pos (frameJ4 F))
             (LinkProps.cogRatio LINKS.UPPER).
Definition cogFore (F : Frames) : Vector3.t :=
  lerpVector (FrameData.pos (frameJ6 F)) (FrameData.pos (frameJ7X F))
             (LinkProps.cogRatio LINKS.FOREARM).
Definition cogHand (F : Frames) : Vector3.t :=
  lerpVector (FrameData.pos (frameJ7Z F)) (endEffector F)
             (LinkProps.cogRatio LINKS.HAND).

Definition loadSet (F : Frames) (loadMass : R) : list Load.t :=
  [ Load.mk (LinkProps.mass LINKS.UPPER) (cogUpper F);
    Load.mk (LinkProps.mass LINKS.FOREARM) (cogFore F);
    Load.mk (LinkProps.mass LINKS.HAND) (cogHand F);
    Load.mk loadMass (endEffector F) ].

(** JavaScript truthiness of [torqueMap[key]]: a missing key reads
    [undefined], and the number 0 is falsy as well.  The comparison with 0
    is the exact one of the reals; see the note on numbers at the head of
    the file for what that means on doubles. *)
Definition falsy (v : option R) : bool :=
  match v with
  | None => true
  | Some t => if Req_dec_T t 0 then true else false
  end.

(** [joints.forEach(j => { if(!torqueMap[j.id]) torqueMap[j.id] = 0.1; })] *)
Definition fillTorques (joints : list JointState.t) (torqueMap : gmap string R)
  : gmap string R :=
  fold_left
    (fun tm j =>
       if falsy (tm !! JointState.id j) then <[JointState.id j := 0.1]> tm
       else tm)
    joints torqueMap.

(** The three assignments to [torqueMap], then the fill; the result is what
    [setJointTorques] publishes. *)
Definition torqueMap (joints : list JointState.t) (F : Frames) (loadMass : R)
  : gmap string R :=
  let loadSet := loadSet F loadMass in
  let tm : gmap string R := ∅ in
  let tm := <["j2" := calculateMoment (FrameData.pos (frameJ2 F)) loadSet]> tm in
  let tm :=
    <["j5" := calculateMoment (FrameData.pos (frameJ5 F)) (drop 1 loadSet)]> tm in
  let tm :=
    <["j7_y" := calculateMoment (FrameData.pos (frameJ7Y F)) (drop 2 loadSet)]> tm in
  fillTorques joints tm.

(** Reading [torqueMap[key]] as a number; the three keys read by the source
    are always present ([torqueMap_pivots_present]). *)
Definition readTorque (tm : gmap string R) (key : string) : R :=
  match tm !! key with
  | Some t => t
  | None => 0
  end.

Definition calcStress (torque : R) (link : LinkProps.t) : R :=
  let I := calculateInertia (LinkProps.od link) (LinkProps.thickness link) in
  let c := LinkProps.od link / 2 in
  ((torque * c) / I) / 1e6.

(** The argument of [setStressResults]. *)
Definition stressResults (tm : gmap string R) : list StressResult.t :=
  let stressS := calcStress (readTorque tm "j2") LINKS.UPPER in
  let stressE := calcStress (readTorque tm "j5") LINKS.FOREARM in
  let stressW := calcStress (readTorque tm "j7_y") LINKS.HAND in
  [ StressResult.mk "Shoulder" (readTorque tm "j2") 0 stressS
      (AL6061_YIELD_STRENGTH / stressS) (getStressColor stressS);
    StressResult.mk "Elbow" (readTorque tm "j5") 0 stressE
      (AL6061_YIELD_STRENGTH / stressE) (getStressColor stressE);
    StressResult.mk "Wrist" (readTorque tm "j7_y") 0 stressW
      (AL6061_YIELD_STRENGTH / stressW) (getStressColor stressW) ].

(** [setTrajectory(prev => ...)]: [slice(-150)] keeps the last 150 entries. *)
Definition sliceLast (n : nat) {A : Type} (l : list A) : list A :=
  drop (List.length l - n) l.

Definition nearLast (prev : list Vector3.t) (endEffector : Vector3.t) : bool :=
  match last prev with
  | Some l =>
      (if Rlt_dec (Rabs (Vector3.x l - Vector3.x endEffector)) 0.005
       then true else false)
      && (if Rlt_dec (Rabs (Vector3.y l - Vector3.y endEffector)) 0.005
          then true else false)
  | None => false
  end.

Definition updateTrajectory (prev : list Vector3.t) (endEffector : Vector3.t)
  : list Vector3.t :=
  if nearLast prev endEffector then prev
  else sliceLast 150 (prev ++ [endEffector]).

(** What one run of the render effect publishes through its setters. *)
Record Evaluation : Type := mkEvaluation {
  ev_frames : list FrameData.t;
  ev_endEffector : Vector3.t;
  ev_reach : R;
  ev_jointTorques : gmap string R;
  ev_stressResults : list StressResult.t;
  ev_trajectory : list Vector3.t
}.

(** The render effect for the current [joints], [loadMass] and [trajectory].
    Reading [joints[8].angle] on a shorter array is a TypeError: [None]. *)
Definition renderEffect (joints : list JointState.t) (loadMass : R)
    (trajectory : list Vector3.t) : option Evaluation :=
  match joints with
  | j0 :: j1 :: j2 :: j3 :: j4 :: j5 :: j6 :: j7 :: j8 :: _ =>
      let F := forwardKinematics
                 (JointState.angle j0) (JointState.angle j1)
                 (JointState.angle j2) (JointState.angle j3)
                 (JointState.angle j4) (JointState.angle j5)
                 (JointState.angle j6) (JointState.angle j7)
                 (JointState.angle j8) in
      let tm := torqueMap joints F loadMass in
      Some (mkEvaluation (allFrames F) (endEffector F) (reach F) tm
              (stressResults tm)
              (updateTrajectory trajectory (endEffector F)))
  | _ => None
  end.

(** ** Joint physics (the animation-frame callback) *)

#[global] Instance Group_eq_dec : EqDecision Group.
Proof. solve_decision. Defined.

(** The mutable state the callback reads and writes: the [joints] state,
    the closure variable [lastTime], and the refs [timeRef] and
    [isPlayingRef]. *)
Record SimState : Type := mkSimState {
  joints : list JointState.t;
  lastTime : R;
  timeRef : R;
  isPlayingRef : bool
}.

(** The body of [prevJoints.map((j, i) => ...)] for the time step [dt] and
    the animation clock [t]. *)
Definition stepJoint (isPlaying : bool) (t dt : R) (i : nat) (j : JointState.t)
  : JointState.t :=
  let target := JointState.targetAngle j in
  let target :=
    if isPlaying && negb (bool_decide (JointState.group j = Gripper)) then
      let offset := INR i * 0.5 in
      let amp := (JointState.max j - JointState.min j) * 0.15 in
      let center := (JointState.max j + JointState.min j) / 2 in
      center + sin (t * 1.5 + offset) * amp
    else target in
  let stiffness := 120 in
  let damping := 15 in
  let inertia := 1.0 in
  let inertia := if decide (JointState.group j = Shoulder) then 2.5 else inertia in
  let inertia := if decide (JointState.group j = Elbow) then 1.5 else inertia in
  let inertia := if decide (JointState.group j = Wrist) then 0.5 else inertia in
  let error := target - JointState.angle j in
  let acceleration := (stiffness * error - damping * JointState.velocity j) / inertia in
  let newVelocity := JointState.velocity j + acceleration * dt in
  let newAngle := JointState.angle j + newVelocity * dt in
  {| JointState.id := JointState.id j;
     JointState.name := JointState.name j;
     JointState.angle := newAngle;
     JointState.targetAngle := target;
     JointState.velocity := newVelocity;
     JointState.min := JointState.min j;
     JointState.max := JointState.max j;
     JointState.axis := JointState.axis j;
     JointState.group := JointState.group j |}.

(** [animate(time)]: one tick at wall-clock [time] (milliseconds). *)
Definition animate (time : R) (s : SimState) : SimState :=
  let dt := Rmin ((time - lastTime s) / 1000) 0.1 in
  let lastTime' := time in
  let timeRef' := if isPlayingRef s then timeRef s + dt else timeRef s in
  {| joints := imap (stepJoint (isPlayingRef s) timeRef' dt) (joints s);
     lastTime := lastTime';
     timeRef := timeRef';
     isPlayingRef := isPlayingRef s |}.

(** [handleSliderChange(id, val)]: only the target of the joint moves. *)
Definition handleSliderChange (id : string) (val : R)
    (joints : list JointState.t) : list JointState.t :=
  map (fun j =>
         if decide (JointState.id j = id) then
           {| JointState.id := JointState.id j;
              JointState.name := JointState.name j;
              JointState.angle := JointState.angle j;
              JointState.targetAngle := val;
              JointState.velocity := JointState.velocity j;
              JointState.min := JointState.min j;
              JointState.max := JointState.max j;
              JointState.axis := JointState.axis j;
              JointState.group := JointState.group j |}
         else j)
      joints.

(** [resetSimulation()]: the new [joints]; it also stops the animation and
    empties the trajectory. *)
Definition resetSimulation (joints : list JointState.t) : list JointState.t :=
  map (fun j =>
         let resetAngle :=
           if decide (JointState.id j = "j4" \/ JointState.id j = "j5") then -180
           else if decide (JointState.id j = "j9") then 50
           else 0 in
         {| JointState.id := JointState.id j;
            JointState.name := JointState.name j;
            JointState.angle := resetAngle;
            JointState.targetAngle := resetAngle;
            JointState.velocity := 0;
            JointState.min := JointState.min j;
            JointState.max := JointState.max j;
            JointState.axis := JointState.axis j;
            JointState.group := JointState.group j |})
      joints.

(** The object [exportData] serialises, from the [joints] state and the
    states set by the last render effect.  The timestamp and the two
    [toFixed] strings (end effector in mm, reach) are left out. *)
Record ExportData : Type := mkExportData {
  configuration : list JointState.t;
  stressData : list StressResult.t;
  torques : gmap string R;
  trajectory : list Vector3.t
}.

Definition exportData (joints : list JointState.t) (ev : Evaluation)
  : ExportData :=
  {| configuration := joints;
     stressData := ev_stressResults ev;
     torques := ev_jointTorques ev;
     trajectory := ev_trajectory ev |}.

(** ** Torque bars of the joint sliders *)

Definition getMaxTorque (group : Group) : R :=
  match group with
  | Shoulder => 120
  | Elbow => 60
  | Wrist => 20
  | _ => 10
  end.

Inductive UsageColor : Type := bg_red_500 | bg_yellow_500 | bg_green_500.

(** [jointTorques[j.id] || 0] is [readTorque]: a missing key reads 0. *)
Definition usagePercent (jointTorques : gmap string R) (j : JointState.t) : R :=
  let torque := readTorque jointTorques (JointState.id j) in
  let maxTorque := getMaxTorque (JointState.group j) in
  Rmin 100 ((torque / maxTorque) * 100).

Definition usageColor (usagePercent : R) : UsageColor :=
  if Rgt_dec usagePercent 90 then bg_red_500
  else if Rgt_dec usagePercent 70 then bg_yellow_500
  else bg_green_500.

(** ** Camera, wheel and mouse handlers *)

Module Camera.
Record t : Type := mk { azim : R; elev : R; scale : R; panX : R; panY : R }.
End Camera.

Definition initialCamera : Camera.t := Camera.mk 45 20 300 0 0.

(** The updater [onWheel] passes to [setCamera], for the event's [deltaY]. *)
Definition onWheel (deltaY : R) (prev : Camera.t) : Camera.t :=
  let zoomSensitivity := 0.5 in
  {| Camera.azim := Camera.azim prev;
     Camera.elev := Camera.elev prev;
     Camera.scale :=
       Rmax 50 (Rmin 3000 (Camera.scale prev - deltaY * zoomSensitivity));
     Camera.panX := Camera.panX prev;
     Camera.panY := Camera.panY prev |}.

Inductive Mode : Type := rotate | pan.

Module MouseEvent.
Record t : Type := mk { clientX : R; clientY : R; button : Z; shiftKey : bool }.
End MouseEvent.

(** The camera with what the mouse handlers read and write: the state
    [isDragging] and the refs [interactionMode] and [lastMousePos].  A state
    update is taken to be rendered before the next event arrives. *)
Record View : Type := mkView {
  camera : Camera.t;
  isDragging : bool;
  interactionMode : option Mode;
  lastMousePos : option (R * R)
}.

Definition initialView : View := mkView initialCamera false None None.

Definition handleMouseDown (e : MouseEvent.t) (v : View) : View :=
  {| camera := camera v;
     isDragging := true;
     interactionMode :=
       Some (if (MouseEvent.button e =? 1)%Z
                || ((MouseEvent.button e =? 0)%Z && MouseEvent.shiftKey e)
             then pan else rotate);
     lastMousePos := Some (MouseEvent.clientX e, MouseEvent.clientY e) |}.

Definition handleMouseMove (e : MouseEvent.t) (v : View) : View :=
  if negb (isDragging v) then v
  else
    match lastMousePos v with
    | None => v
    | Some (lastX, lastY) =>
        let dx := MouseEvent.clientX e - lastX in
        let dy := MouseEvent.clientY e - lastY in
        let prev := camera v in
        let camera' :=
          match interactionMode v with
          | Some rotate =>
              {| Camera.azim := Camera.azim prev - dx * 0.5;
                 Camera.elev := Rmax (-89) (Rmin 89 (Camera.elev prev + dy * 0.5));
                 Camera.scale := Camera.scale prev;
                 Camera.panX := Camera.panX prev;
                 Camera.panY := Camera.panY prev |}
          | Some pan =>
              {| Camera.azim := Camera.azim prev;
                 Camera.elev := Camera.elev prev;
                 Camera.scale := Camera.scale prev;
                 Camera.panX := Camera.panX prev + dx;
                 Camera.panY := Camera.panY prev + dy |}
          | None => prev
          end in
        {| camera := camera';
           isDragging := isDragging v;
           interactionMode := interactionMode v;
           lastMousePos := Some (MouseEvent.clientX e, MouseEvent.clientY e) |}
    end.

Definition handleMouseUp (v : View) : View :=
  {| camera := camera v;
     isDragging := false;
     interactionMode := None;
     lastMousePos := None |}.

(** [project] of the render effect, for a canvas of [w] by [h] pixels. *)
Definition project (camera : Camera.t) (w h : R) (v : Vector3.t) : Vector3.t :=
  let radAzim := toRad (Camera.azim camera) in
  let radElev := toRad (Camera.elev camera) in
  let scale := Camera.scale camera in
  let x := Vector3.x v in
  let y := Vector3.y v in
  let z := Vector3.z v in
  let x1 := x * cos radAzim - y * sin radAzim in
  let y1 := x * sin radAzim + y * cos radAzim in
  let z1 := z in
  let y2 := z1 * cos radElev - x1 * sin radElev in
  let z2 := z1 * sin radElev + x1 * cos radElev in
  let x2 := y1 in
  {| Vector3.x := w / 2 + x2 * scale + Camera.panX camera;
     Vector3.y := h / 1.5 - y2 * scale + Camera.panY camera;
     Vector3.z := z2 |}.

(** ** Gripper fingers *)

(** [joints.find(j => j.id === 'j9')] *)
Definition gripperJ (joints : list JointState.t) : option JointState.t :=
  List.find (fun j => bool_decide (JointState.id j = "j9")) joints.

Definition isGripperMoving (joints : list JointState.t) : bool :=
  match gripperJ joints with
  | Some g => if Rgt_dec (Rabs (JointState.velocity g)) 0.1 then true else false
  | None => false
  end.

Definition openDist (joints : list JointState.t) : R :=
  match gripperJ joints with
  | Some g => (JointState.angle g / 100) * 0.04
  | None => 0.02
  end.




(** ** The kinematic chain over IEEE-754 doubles *)

(* 0.45, 0.30 and 0.15 are not binary64 values; like JavaScript, each
   literal denotes the nearest one. *)
#[local] Set Warnings "-inexact-float".

Module IEEE.

(** The kinematic chain on doubles, for given [Math.cos] and [Math.sin]
    (ECMAScript leaves their accuracy to the implementation and fixes only
    special values, among them cos(+0) = 1 and sin(+0) = +0). *)
Definition Matrix4x4 : Type := list (list float).

Definition get (m : Matrix4x4) (r c : nat) : float := nth c (nth r m []) 0%float.

Definition identity : Matrix4x4 :=
  [ [1; 0; 0; 0]; [0; 1; 0; 0]; [0; 0; 1; 0]; [0; 0; 0; 1] ]%float.

Definition multiplyMatrices (m1 m2 : Matrix4x4) : Matrix4x4 :=
  map (fun r =>
    map (fun c =>
      fold_left (fun acc k => (acc + get m1 r k * get m2 k c)%float)
        (seq 0 4) 0%float)
      (seq 0 4))
    (seq 0 4).

Definition translate (x y z : float) : Matrix4x4 :=
  [ [1; 0; 0; x]; [0; 1; 0; y]; [0; 0; 1; z]; [0; 0; 0; 1] ]%float.

Definition Math_PI : float := 0x1.921fb54442d18p+1%float.

Definition toRad (deg : float) : float := (deg * Math_PI / 180)%float.

Section Chain.
Variables Math_cos Math_sin : float -> float.

Definition rotateX (theta : float) : Matrix4x4 :=
  let c := Math_cos theta in
  let s := Math_sin theta in
  [ [1; 0; 0; 0]; [0; c; - s; 0]; [0; s; c; 0]; [0; 0; 0; 1] ]%float.

Definition rotateY (theta : float) : Matrix4x4 :=
  let c := Math_cos theta in
  let s := Math_sin theta in
  [ [c; 0; s; 0]; [0; 1; 0; 0]; [- s; 0; c; 0]; [0; 0; 0; 1] ]%float.

Definition rotateZ (theta : float) : Matrix4x4 :=
  let c := Math_cos theta in
  let s := Math_sin theta in
  [ [c; - s; 0; 0]; [s; c; 0; 0]; [0; 0; 1; 0]; [0; 0; 0; 1] ]%float.

(** [endEffectorFrame.pos], as a triple, after the twelve assignments to
    [TGlobal]. *)
Definition endEffector (a0 a1 a2 a3 a4 a5 a6 a7 a8 : float)
  : float * float * float :=
  let TGlobal := identity in
  let TGlobal := multiplyMatrices TGlobal (rotateZ (toRad a0)) in
  let TGlobal := multiplyMatrices TGlobal (rotateY (toRad a1)) in
  let TGlobal := multiplyMatrices TGlobal (rotateX (toRad a2)) in
  let TGlobal := multiplyMatrices TGlobal (translate 0.45 0 0) in
  let TGlobal := multiplyMatrices TGlobal (rotateZ (toRad a3)) in
  let TGlobal := multiplyMatrices TGlobal (rotateY (toRad a4)) in
  let TGlobal := multiplyMatrices TGlobal (rotateX (toRad a5)) in
  let TGlobal := multiplyMatrices TGlobal (translate 0.30 0 0) in
  let TGlobal := multiplyMatrices TGlobal (rotateX (toRad a6)) in
  let TGlobal := multiplyMatrices TGlobal (rotateY (toRad a7)) in
  let TGlobal := multiplyMatrices TGlobal (rotateZ (toRad a8)) in
  let TGlobal := multiplyMatrices TGlobal (translate 0.15 0 0) in
  (get TGlobal 0 3, get TGlobal 1 3, get TGlobal 2 3).

End Chain.

End IEEE.

(** * Definitions used in the statements *)

(** Every matrix of the program has four rows of four entries, so no read
    [m[r][c]] with r, c < 4 is out of range. *)
Definition shape4 (m : Matrix4x4) : Prop :=
  List.length m = 4%nat /\ Forall (fun row => List.length row = 4%nat) m.

(** Two matrices with the same sixteen entries. *)
Definition meq (m1 m2 : Matrix4x4) : Prop :=
  forall r c, (r < 4)%nat -> (c < 4)%nat -> get m1 r c = get m2 r c.

(** The specification's description of the chain: a joint triple applied in
    the order Z, Y, X or X, Y, Z, and the link translation along local X. *)
Definition tripleZYX (az ay ax : R) : list Matrix4x4 :=
  [ rotateZ (toRad az); rotateY (toRad ay); rotateX (toRad ax) ].

Definition tripleXYZ (ax ay az : R) : list Matrix4x4 :=
  [ rotateX (toRad ax); rotateY (toRad ay); rotateZ (toRad az) ].

Definition linkTranslation (link : LinkProps.t) : list Matrix4x4 :=
  [ translate (LinkProps.length link) 0 0 ].

Definition chainSteps (a0 a1 a2 a3 a4 a5 a6 a7 a8 : R) : list Matrix4x4 :=
  tripleZYX a0 a1 a2 ++ linkTranslation LINKS.UPPER
  ++ tripleZYX a3 a4 a5 ++ linkTranslation LINKS.FOREARM
  ++ tripleXYZ a6 a7 a8 ++ linkTranslation LINKS.HAND.

(** The accumulated transform after the first [n] steps, each step
    post-multiplied onto the accumulator, starting from the identity. *)
Definition accumulated (steps : list Matrix4x4) (n : nat) : Matrix4x4 :=
  fold_left multiplyMatrices (take n steps) identity.

(** Column [c] of the upper three rows: the translation for c = 3, an axis
    for c < 3. *)
Definition column (m : Matrix4x4) (c : nat) : Vector3.t :=
  Vector3.mk (get m 0 c) (get m 1 c) (get m 2 c).

Definition vadd (a b : Vector3.t) : Vector3.t :=
  Vector3.mk (Vector3.x a + Vector3.x b) (Vector3.y a + Vector3.y b)
             (Vector3.z a + Vector3.z b).

Definition vsub (a b : Vector3.t) : Vector3.t :=
  Vector3.mk (Vector3.x a - Vector3.x b) (Vector3.y a - Vector3.y b)
             (Vector3.z a - Vector3.z b).

Definition vscale (k : R) (a : Vector3.t) : Vector3.t :=
  Vector3.mk (k * Vector3.x a) (k * Vector3.y a) (k * Vector3.z a).

(** cos 45 degrees = sin 45 degrees. *)
Definition h45 : R := 1 / sqrt 2.

(** [Ms] lists the accumulator after each step of [steps], started at
    [acc]. *)
Fixpoint chainMatches (acc : Matrix4x4) (steps Ms : list Matrix4x4) : Prop :=
  match steps, Ms with
  | B :: steps', M :: Ms' =>
      meq (multiplyMatrices acc B) M /\ chainMatches M steps' Ms'
  | [], [] => True
  | _, _ => False
  end.

(** The arm with every angle at zero and the gripper half open. *)
Definition zeroJoints : list JointState.t :=
  [ JointState.mk "j1" "Shoulder Z (Yaw)" 0 0 0 (-90) 90 axis_z Shoulder;
    JointState.mk "j2" "Shoulder Y (Pitch)" 0 0 0 (-90) 90 axis_y Shoulder;
    JointState.mk "j3" "Shoulder X (Roll)" 0 0 0 (-45) 45 axis_x Shoulder;
    JointState.mk "j4" "Elbow Z (Yaw)" 0 0 0 (-270) (-90) axis_z Elbow;
    JointState.mk "j5" "Elbow Y (Pitch)" 0 0 0 (-270) (-90) axis_y Elbow;
    JointState.mk "j6" "Elbow X (Roll)" 0 0 0 (-45) 45 axis_x Elbow;
    JointState.mk "j7_x" "Wrist X (Roll)" 0 0 0 (-45) 45 axis_x Wrist;
    JointState.mk "j7_y" "Wrist Y (Pitch)" 0 0 0 (-45) 45 axis_y Wrist;
    JointState.mk "j7_z" "Wrist Z (Yaw)" 0 0 0 (-45) 45 axis_z Wrist;
    JointState.mk "j9" "Gripper" 50 50 0 0 100 axis_x Gripper ].

Definition jointIds (joints : list JointState.t) : list string :=
  map JointState.id joints.

(** What the fill leaves under a key that held the number [raw]. *)
Definition afterFill (raw : R) : R := if Req_dec_T raw 0 then 0.1 else raw.

(** The moments assigned to the three pivots before the fill. *)
Definition momentJ2 (F : Frames) (loadMass : R) : R :=
  calculateMoment (FrameData.pos (frameJ2 F)) (loadSet F loadMass).

Definition momentJ5 (F : Frames) (loadMass : R) : R :=
  calculateMoment (FrameData.pos (frameJ5 F)) (drop 1 (loadSet F loadMass)).

Definition momentJ7Y (F : Frames) (loadMass : R) : R :=
  calculateMoment (FrameData.pos (frameJ7Y F)) (drop 2 (loadSet F loadMass)).

(** The trajectories the component can hold: it starts empty (and
    [resetSimulation] empties it), and each render effect updates it. *)
Inductive trajectoryReachable : list Vector3.t -> Prop :=
| trajectory_empty : trajectoryReachable []
| trajectory_update prev endEffector :
    trajectoryReachable prev ->
    trajectoryReachable (updateTrajectory prev endEffector).

(** A full trail of 150 points 6 mm apart along X, ending at x = 0.894. *)
Definition fullTrail : list Vector3.t :=
  map (fun i => Vector3.mk (INR i * 0.006) 0 0) (seq 0 150).

(** The moment of one load about [pivot]: [crossProduct(r, F)]. *)
Definition loadMoment (pivot : Vector3.t) (L : Load.t) : Vector3.t :=
  crossProduct (vsub (Load.pos L) pivot)
               (Vector3.mk 0 0 (- Load.mass L * GRAVITY)).

(** The loads of the three links; the payload is the last load of
    [loadSet] and of the two slices the source takes of it. *)
Definition linkLoads (F : Frames) : list Load.t :=
  [ Load.mk (LinkProps.mass LINKS.UPPER) (cogUpper F);
    Load.mk (LinkProps.mass LINKS.FOREARM) (cogFore F);
    Load.mk (LinkProps.mass LINKS.HAND) (cogHand F) ].

(** The moment of the link masses about a pivot that carries the loads
    from the [k]-th on, and the moment of a payload of unit mass. *)
Definition linkMoment (F : Frames) (pivot : Vector3.t) (k : nat) : Vector3.t :=
  totalMoment pivot (drop k (linkLoads F)).

Definition unitPayloadMoment (F : Frames) (pivot : Vector3.t) : Vector3.t :=
  crossProduct (vsub (endEffector F) pivot) (Vector3.mk 0 0 (- GRAVITY)).

Definition dot (a b : Vector3.t) : R :=
  Vector3.x a * Vector3.x b + Vector3.y a * Vector3.y b
  + Vector3.z a * Vector3.z b.

(** The links of the arm: positive tube diameter and inertia. *)
Definition armLink (link : LinkProps.t) : Prop :=
  0 < LinkProps.od link
  /\ 0 < calculateInertia (LinkProps.od link) (LinkProps.thickness link).

(** Shoulder pitch -45, elbow pitch -90, wrist pitch 45, every other joint
    as in the initial state: each angle lies in the declared range of its
    joint.  The upper arm rises at 45 degrees, the forearm folds back over
    it and the hand points backwards, so the end effector lies behind the
    shoulder while the links' centres of gravity lie in front of it. *)
Definition foldedJoints : list JointState.t :=
  [ JointState.mk "j1" "Shoulder Z (Yaw)" 0 0 0 (-90) 90 axis_z Shoulder;
    JointState.mk "j2" "Shoulder Y (Pitch)" (-45) (-45) 0 (-90) 90 axis_y Shoulder;
    JointState.mk "j3" "Shoulder X (Roll)" 0 0 0 (-45) 45 axis_x Shoulder;
    JointState.mk "j4" "Elbow Z (Yaw)" (-180) (-180) 0 (-270) (-90) axis_z Elbow;
    JointState.mk "j5" "Elbow Y (Pitch)" (-90) (-90) 0 (-270) (-90) axis_y Elbow;
    JointState.mk "j6" "Elbow X (Roll)" 0 0 0 (-45) 45 axis_x Elbow;
    JointState.mk "j7_x" "Wrist X (Roll)" 0 0 0 (-45) 45 axis_x Wrist;
    JointState.mk "j7_y" "Wrist Y (Pitch)" 45 45 0 (-45) 45 axis_y Wrist;
    JointState.mk "j7_z" "Wrist Z (Yaw)" 0 0 0 (-45) 45 axis_z Wrist;
    JointState.mk "j9" "Gripper" 50 50 0 0 100 axis_x Gripper ].

(** Elbow yaw and pitch -225, wrist pitch -45, every other joint as in the
    initial state: each angle lies in the declared range of its joint, and
    the hand hangs straight down from the wrist. *)
Definition hangingJoints : list JointState.t :=
  [ JointState.mk "j1" "Shoulder Z (Yaw)" 0 0 0 (-90) 90 axis_z Shoulder;
    JointState.mk "j2" "Shoulder Y (Pitch)" 0 0 0 (-90) 90 axis_y Shoulder;
    JointState.mk "j3" "Shoulder X (Roll)" 0 0 0 (-45) 45 axis_x Shoulder;
    JointState.mk "j4" "Elbow Z (Yaw)" (-225) (-225) 0 (-270) (-90) axis_z Elbow;
    JointState.mk "j5" "Elbow Y (Pitch)" (-225) (-225) 0 (-270) (-90) axis_y Elbow;
    JointState.mk "j6" "Elbow X (Roll)" 0 0 0 (-45) 45 axis_x Elbow;
    JointState.mk "j7_x" "Wrist X (Roll)" 0 0 0 (-45) 45 axis_x Wrist;
    JointState.mk "j7_y" "Wrist Y (Pitch)" (-45) (-45) 0 (-45) 45 axis_y Wrist;
    JointState.mk "j7_z" "Wrist Z (Yaw)" 0 0 0 (-45) 45 axis_z Wrist;
    JointState.mk "j9" "Gripper" 50 50 0 0 100 axis_x Gripper ].

(** The joint states the component can reach: the initial state, ticks of
    the animation loop, slider moves, resets, and play/pause toggles. *)
Inductive simReachable : SimState -> Prop :=
| reachable_initial lastTime :
    simReachable (mkSimState initialJoints lastTime 0 false)
| reachable_animate time s :
    simReachable s -> simReachable (animate time s)
| reachable_slider id val s :
    simReachable s ->
    simReachable (mkSimState (handleSliderChange id val (joints s))
                    (lastTime s) (timeRef s) (isPlayingRef s))
| reachable_reset s :
    simReachable s ->
    simReachable (mkSimState (resetSimulation (joints s))
                    (lastTime s) (timeRef s) false)
| reachable_toggle playing s :
    simReachable s ->
    simReachable (mkSimState (joints s) (lastTime s) (timeRef s) playing).

(** ** Definitions for the further properties *)

(** Three vectors of unit length, orthogonal to each other. *)
Definition orthonormal (u v w : Vector3.t) : Prop :=
  dot u u = 1 /\ dot v v = 1 /\ dot w w = 1
  /\ dot u v = 0 /\ dot u w = 0 /\ dot v w = 0.

(** A transform whose three axes are orthonormal. *)
Definition rigid (m : Matrix4x4) : Prop :=
  orthonormal (column m 0) (column m 1) (column m 2).

(** The matrices the chain is made of. *)
Inductive chainStep : Matrix4x4 -> Prop :=
| step_rotateX theta : chainStep (rotateX theta)
| step_rotateY theta : chainStep (rotateY theta)
| step_rotateZ theta : chainStep (rotateZ theta)
| step_translate l : chainStep (translate l 0 0).

(** The three axes of a frame are orthonormal. *)
Definition orthonormalFrame (f : FrameData.t) : Prop :=
  orthonormal (FrameData.xAxis f) (FrameData.yAxis f) (FrameData.zAxis f).

(** The mass-weighted sum of the lever arms of [loads] about [pivot]. *)
Definition firstMoment (pivot : Vector3.t) (loads : list Load.t) : Vector3.t :=
  fold_right
    (fun L acc => vadd (vscale (Load.mass L) (vsub (Load.pos L) pivot)) acc)
    (Vector3.mk 0 0 0) loads.

(** The pose the component starts in, with the arm stretched along X. *)
Definition stretched : Frames := forwardKinematics 0 0 0 (-180) (-180) 0 0 0 0.

(** The hue of a link colour. *)
Definition hueOf (c : Color) : R := match c with hsl h _ _ => h end.

(** The fields of a joint that no handler writes. *)
Definition staticFields (j : JointState.t)
  : string * string * R * R * Axis * Group :=
  (JointState.id j, JointState.name j, JointState.min j, JointState.max j,
   JointState.axis j, JointState.group j).

(** Two points the trail update takes for the same: less than 5 mm apart
    in x and in y. *)
Definition near (a b : Vector3.t) : Prop :=
  Rabs (Vector3.x a - Vector3.x b) < 0.005
  /\ Rabs (Vector3.y a - Vector3.y b) < 0.005.

(** No two neighbours of the list are [near] each other. *)
Fixpoint adjacentApart (l : list Vector3.t) : Prop :=
  match l with
  | a :: (b :: _) as tl => ~ near a b /\ adjacentApart tl
  | _ => True
  end.

(** The views the component can reach: the initial one, and the results of
    wheel events, mouse events and the Reset Camera button. *)
Inductive viewReachable : View -> Prop :=
| view_initial : viewReachable initialView
| view_wheel deltaY v :
    viewReachable v ->
    viewReachable (mkView (onWheel deltaY (camera v)) (isDragging v)
                     (interactionMode v) (lastMousePos v))
| view_down e v : viewReachable v -> viewReachable (handleMouseDown e v)
| view_move e v : viewReachable v -> viewReachable (handleMouseMove e v)
| view_up v : viewReachable v -> viewReachable (handleMouseUp v)
| view_reset v :
    viewReachable v ->
    viewReachable (mkView initialCamera (isDragging v)
                     (interactionMode v) (lastMousePos v)).

(** * Properties *)

(** ** Matrix entries *)

(** Entry [r,c] of a product, as the innermost loop accumulates it. *)
Lemma get_multiplyMatrices (m1 m2 : Matrix4x4) (r c : nat) :
  (r < 4)%nat -> (c < 4)%nat ->
  get (multiplyMatrices m1 m2) r c =
  0 + get m1 r 0 * get m2 0 c + get m1 r 1 * get m2 1 c
    + get m1 r 2 * get m2 2 c + get m1 r 3 * get m2 3 c.
Proof.
  intros Hr Hc.
  destruct r as [|[|[|[|r]]]]; try lia;
    destruct c as [|[|[|[|c]]]]; try lia; reflexivity.
Qed.

Lemma shape4_identity : shape4 identity.
Proof. split; [reflexivity | repeat constructor]. Qed.

Lemma shape4_multiplyMatrices m1 m2 : shape4 (multiplyMatrices m1 m2).
Proof. split; [reflexivity | repeat constructor]. Qed.

Lemma shape4_rotateX theta : shape4 (rotateX theta).
Proof. split; [reflexivity | repeat constructor]. Qed.

Lemma shape4_rotateY theta : shape4 (rotateY theta).
Proof. split; [reflexivity | repeat constructor]. Qed.

Lemma shape4_rotateZ theta : shape4 (rotateZ theta).
Proof. split; [reflexivity | repeat constructor]. Qed.

Lemma shape4_translate x y z : shape4 (translate x y z).
Proof. split; [reflexivity | repeat constructor]. Qed.

Lemma meq_refl m : meq m m.
Proof. intros r c _ _. reflexivity. Qed.

Lemma meq_trans m1 m2 m3 : meq m1 m2 -> meq m2 m3 -> meq m1 m3.
Proof. intros H12 H23 r c Hr Hc. rewrite H12, H23; auto. Qed.

Lemma meq_multiplyMatrices m1 m1' m2 m2' :
  meq m1 m1' -> meq m2 m2' ->
  meq (multiplyMatrices m1 m2) (multiplyMatrices m1' m2').
Proof.
  intros H1 H2 r c Hr Hc.
  rewrite !get_multiplyMatrices by assumption.
  rewrite !(H1 r) by (assumption || lia).
  rewrite !(fun k Hk => H2 k c Hk Hc) by lia.
  reflexivity.
Qed.

Lemma meq_extractFrame m1 m2 id label :
  meq m1 m2 -> extractFrame m1 id label = extractFrame m2 id label.
Proof.
  intros H. unfold extractFrame.
  rewrite !(H 0%nat), !(H 1%nat), !(H 2%nat) by lia.
  reflexivity.
Qed.

(** ** The kinematic chain *)

Section Chain.
Variables a0 a1 a2 a3 a4 a5 a6 a7 a8 : R.

Let steps := chainSteps a0 a1 a2 a3 a4 a5 a6 a7 a8.
Let F := forwardKinematics a0 a1 a2 a3 a4 a5 a6 a7 a8.

Lemma forwardKinematics_accumulated :
  F = mkFrames
        (extractFrame (accumulated steps 0) 0 "Base")
        (extractFrame (accumulated steps 1) 1 "J1 (Sh_Z)")
        (extractFrame (accumulated steps 2) 2 "J2 (Sh_Y)")
        (extractFrame (accumulated steps 3) 3 "J3 (Sh_X)")
        (extractFrame (accumulated steps 5) 4 "J4 (Elb_Z)")
        (extractFrame (accumulated steps 6) 5 "J5 (Elb_Y)")
        (extractFrame (accumulated steps 7) 6 "J6 (Elb_X)")
        (extractFrame (accumulated steps 9) 7 "J7 (Wr_X)")
        (extractFrame (accumulated steps 10) 8 "J8 (Wr_Y)")
        (extractFrame (accumulated steps 11) 9 "J9 (Wr_Z)")
        (extractFrame (accumulated steps 12) 10 "EE").
Proof. reflexivity. Qed.

End Chain.

(** ** Columns of the accumulated transform *)

Lemma Vector3_eq (a b : Vector3.t) :
  Vector3.x a = Vector3.x b -> Vector3.y a = Vector3.y b ->
  Vector3.z a = Vector3.z b -> a = b.
Proof. destruct a, b; simpl; intros -> -> ->; reflexivity. Qed.

(** Decimal literals are rationals injected by [Q2R]; [ring] and [field]
    need them as quotients of integers. *)
Ltac decimals := unfold Q2R; cbn [QArith_base.Qnum QArith_base.Qden].

Ltac entries :=
  rewrite ?get_multiplyMatrices by lia;
  unfold rotateX, rotateY, rotateZ, translate, identity, get;
  cbn [nth].

Ltac vector_eq :=
  apply Vector3_eq; cbn [Vector3.x Vector3.y Vector3.z column vadd vsub vscale];
  entries.

Lemma column3_rotateX m theta :
  column (multiplyMatrices m (rotateX theta)) 3 = column m 3.
Proof. vector_eq; ring. Qed.

Lemma column3_rotateY m theta :
  column (multiplyMatrices m (rotateY theta)) 3 = column m 3.
Proof. vector_eq; ring. Qed.

Lemma column3_rotateZ m theta :
  column (multiplyMatrices m (rotateZ theta)) 3 = column m 3.
Proof. vector_eq; ring. Qed.

Lemma column3_translate m l :
  column (multiplyMatrices m (translate l 0 0)) 3
  = vadd (column m 3) (vscale l (column m 0)).
Proof. vector_eq; ring. Qed.

Ltac skip_rotations :=
  repeat first [ rewrite column3_rotateX | rewrite column3_rotateY
               | rewrite column3_rotateZ ].

Lemma column3_identity : column identity 3 = Vector3.mk 0 0 0.
Proof. reflexivity. Qed.

Lemma pos_extractFrame m id label :
  FrameData.pos (extractFrame m id label) = column m 3.
Proof. reflexivity. Qed.

Lemma xAxis_extractFrame m id label :
  FrameData.xAxis (extractFrame m id label) = column m 0.
Proof. reflexivity. Qed.

Section Positions.
Variables a0 a1 a2 a3 a4 a5 a6 a7 a8 : R.

Let F := forwardKinematics a0 a1 a2 a3 a4 a5 a6 a7 a8.

(** The three pivots of each group share one origin: rotations leave the
    translation column alone, and each link translation moves it along the
    x axis of the frame before it. *)
Lemma shoulder_positions :
  FrameData.pos (frameJ1 F) = Vector3.mk 0 0 0
  /\ FrameData.pos (frameJ2 F) = Vector3.mk 0 0 0
  /\ FrameData.pos (frameJ3 F) = Vector3.mk 0 0 0.
Proof.
  unfold F, forwardKinematics; cbv zeta; cbn [frameJ1 frameJ2 frameJ3].
  rewrite !pos_extractFrame.
  skip_rotations.
  auto using column3_identity.
Qed.

Lemma elbow_positions :
  let E := vscale (LinkProps.length LINKS.UPPER) (FrameData.xAxis (frameJ3 F)) in
  FrameData.pos (frameJ4 F) = E
  /\ FrameData.pos (frameJ5 F) = E
  /\ FrameData.pos (frameJ6 F) = E.
Proof.
  pose proof shoulder_positions as (_ & _ & H3).
  revert H3.
  unfold F, forwardKinematics; cbv zeta;
    cbn [frameJ3 frameJ4 frameJ5 frameJ6].
  rewrite !pos_extractFrame, !xAxis_extractFrame.
  skip_rotations.
  rewrite column3_translate.
  skip_rotations.
  intros ->.
  assert (forall v, vadd (Vector3.mk 0 0 0) v = v) as Hz.
  { intros [? ? ?]. vector_eq; ring. }
  rewrite Hz. auto.
Qed.

Lemma wrist_positions :
  let W := vadd (FrameData.pos (frameJ6 F))
                (vscale (LinkProps.length LINKS.FOREARM)
                        (FrameData.xAxis (frameJ6 F))) in
  FrameData.pos (frameJ7X F) = W
  /\ FrameData.pos (frameJ7Y F) = W
  /\ FrameData.pos (frameJ7Z F) = W.
Proof.
  unfold F, forwardKinematics; cbv zeta;
    cbn [frameJ6 frameJ7X frameJ7Y frameJ7Z].
  rewrite !pos_extractFrame, !xAxis_extractFrame.
  skip_rotations.
  rewrite column3_translate.
  skip_rotations.
  auto.
Qed.

Lemma endEffector_position :
  endEffector F
  = vadd (FrameData.pos (frameJ7Z F))
         (vscale (LinkProps.length LINKS.HAND) (FrameData.xAxis (frameJ7Z F))).
Proof.
  unfold endEffector, F, forwardKinematics; cbv zeta;
    cbn [frameJ7Z endEffectorFrame].
  rewrite !pos_extractFrame, !xAxis_extractFrame.
  rewrite column3_translate.
  reflexivity.
Qed.

End Positions.

(** ** Frames of one evaluation *)

Lemma accumulated_0 steps : accumulated steps 0 = identity.
Proof. reflexivity. Qed.

Lemma accumulated_S steps n B :
  steps !! n = Some B ->
  accumulated steps (S n) = multiplyMatrices (accumulated steps n) B.
Proof.
  intros H. unfold accumulated.
  rewrite (take_S_r _ _ _ H), fold_left_app. reflexivity.
Qed.

(** C5: the accumulated transform starts at the identity and is
    post-multiplied, step by step, by Z, Y, X rotations for the Shoulder, a
    translation by the Upper Arm length along local X, Z, Y, X rotations for
    the Elbow, a translation by the Forearm length, X, Y, Z rotations for the
    Wrist and a translation by the Hand length; each frame of the engine is
    read off the accumulated transform at its place in that order. *)
Theorem fk_post_multiplies_in_fixed_order (a0 a1 a2 a3 a4 a5 a6 a7 a8 : R) :
  let steps := chainSteps a0 a1 a2 a3 a4 a5 a6 a7 a8 in
  let F := forwardKinematics a0 a1 a2 a3 a4 a5 a6 a7 a8 in
  steps =
    [ rotateZ (toRad a0); rotateY (toRad a1); rotateX (toRad a2);
      translate 0.45 0 0;
      rotateZ (toRad a3); rotateY (toRad a4); rotateX (toRad a5);
      translate 0.30 0 0;
      rotateX (toRad a6); rotateY (toRad a7); rotateZ (toRad a8);
      translate 0.15 0 0 ]
  /\ accumulated steps 0 = identity
  /\ (forall n B, steps !! n = Some B ->
       accumulated steps (S n) = multiplyMatrices (accumulated steps n) B)
  /\ allFrames F =
      [ extractFrame (accumulated steps 0) 0 "Base";
        extractFrame (accumulated steps 1) 1 "J1 (Sh_Z)";
        extractFrame (accumulated steps 2) 2 "J2 (Sh_Y)";
        extractFrame (accumulated steps 3) 3 "J3 (Sh_X)";
        extractFrame (accumulated steps 5) 4 "J4 (Elb_Z)";
        extractFrame (accumulated steps 6) 5 "J5 (Elb_Y)";
        extractFrame (accumulated steps 7) 6 "J6 (Elb_X)";
        extractFrame (accumulated steps 9) 7 "J7 (Wr_X)";
        extractFrame (accumulated steps 10) 8 "J8 (Wr_Y)";
        extractFrame (accumulated steps 11) 9 "J9 (Wr_Z)";
        extractFrame (accumulated steps 12) 10 "EE" ].
Proof.
  intros steps F. split; [reflexivity|]. split; [reflexivity|].
  split; [intros n B; apply accumulated_S|].
  unfold F. rewrite forwardKinematics_accumulated. reflexivity.
Qed.

(** C6, as the specification states it, fails on the initial state: the
    list of frames has eleven entries, not ten. *)
Lemma initial_frames_not_ten :
  exists ev,
    renderEffect initialJoints initialLoadMass [] = Some ev
    /\ List.length (ev_frames ev) <> 10%nat.
Proof. eexists; split; [reflexivity|]. cbn. lia. Qed.

(** C6, amended: for every joint array with at least nine joints the engine
    yields exactly eleven frames, numbered 0 to 10 in order: the Base frame
    first, the nine joint frames, and the end-effector frame last. *)
Theorem frames_are_eleven (j0 j1 j2 j3 j4 j5 j6 j7 j8 : JointState.t)
    (rest : list JointState.t) (loadMass : R) (trajectory : list Vector3.t) :
  exists ev,
    renderEffect (j0 :: j1 :: j2 :: j3 :: j4 :: j5 :: j6 :: j7 :: j8 :: rest)
      loadMass trajectory = Some ev
    /\ List.length (ev_frames ev) = 11%nat
    /\ map FrameData.id (ev_frames ev) = seq 0 11
    /\ map FrameData.label (ev_frames ev) =
       [ "Base"; "J1 (Sh_Z)"; "J2 (Sh_Y)"; "J3 (Sh_X)"; "J4 (Elb_Z)";
         "J5 (Elb_Y)"; "J6 (Elb_X)"; "J7 (Wr_X)"; "J8 (Wr_Y)"; "J9 (Wr_Z)";
         "EE" ]
    /\ head (ev_frames ev) = Some (extractFrame identity 0 "Base")
    /\ FrameData.pos <$> last (ev_frames ev) = Some (ev_endEffector ev).
Proof.
  eexists; split; [reflexivity|].
  cbn [ev_frames ev_endEffector allFrames].
  repeat split.
Qed.

(** ** Evaluating the chain at a pose *)

Lemma toRad_0 : toRad 0 = 0.
Proof. unfold toRad. field. Qed.

Lemma toRad_m180 : toRad (-180) = - PI.
Proof. unfold toRad. field. Qed.

Lemma toRad_m90 : toRad (-90) = - (PI / 2).
Proof. unfold toRad. field. Qed.

Lemma toRad_45 : toRad 45 = PI / 4.
Proof. unfold toRad. field. Qed.

Lemma toRad_m45 : toRad (-45) = - (PI / 4).
Proof. unfold toRad. field. Qed.

Lemma cos_toRad_0 : cos (toRad 0) = 1.
Proof. rewrite toRad_0. apply cos_0. Qed.

Lemma sin_toRad_0 : sin (toRad 0) = 0.
Proof. rewrite toRad_0. apply sin_0. Qed.

Lemma cos_toRad_m180 : cos (toRad (-180)) = -1.
Proof. rewrite toRad_m180, cos_neg. apply cos_PI. Qed.

Lemma sin_toRad_m180 : sin (toRad (-180)) = 0.
Proof. rewrite toRad_m180, sin_neg, sin_PI. lra. Qed.

Lemma cos_toRad_m90 : cos (toRad (-90)) = 0.
Proof. rewrite toRad_m90, cos_neg. apply cos_PI2. Qed.

Lemma sin_toRad_m90 : sin (toRad (-90)) = -1.
Proof. rewrite toRad_m90, sin_neg, sin_PI2. lra. Qed.

Lemma h45_sqr : h45 * h45 = 1 / 2.
Proof.
  unfold h45.
  assert (0 < sqrt 2) by (apply sqrt_lt_R0; lra).
  assert (sqrt 2 * sqrt 2 = 2) by (apply sqrt_sqrt; lra).
  field_simplify; [|lra]. rewrite <- Rsqr_pow2. unfold Rsqr.
  replace (sqrt 2 * sqrt 2) with 2. lra.
Qed.

Lemma h45_pos : 0 < h45.
Proof.
  unfold h45. apply Rdiv_lt_0_compat; [lra|]. apply sqrt_lt_R0; lra.
Qed.

Lemma cos_toRad_45 : cos (toRad 45) = h45.
Proof. rewrite toRad_45. apply cos_PI4. Qed.

Lemma sin_toRad_45 : sin (toRad 45) = h45.
Proof. rewrite toRad_45. apply sin_PI4. Qed.

Lemma cos_toRad_m45 : cos (toRad (-45)) = h45.
Proof. rewrite toRad_m45, cos_neg. apply cos_PI4. Qed.

Lemma sin_toRad_m45 : sin (toRad (-45)) = - h45.
Proof. rewrite toRad_m45, sin_neg, sin_PI4. reflexivity. Qed.

Create Rewrite HintDb trig.
#[global] Hint Rewrite cos_toRad_0 sin_toRad_0 cos_toRad_m180 sin_toRad_m180
  cos_toRad_m90 sin_toRad_m90 cos_toRad_45 sin_toRad_45
  cos_toRad_m45 sin_toRad_m45 : trig.

(** One step of the chain at a pose: if the accumulator has the entries of
    [MA], then post-multiplied by [B] it has those of [M], as far as the
    sixteen entries computed from [MA] and [B] say. *)
Lemma meq_step A MA B M :
  meq A MA -> meq (multiplyMatrices MA B) M -> meq (multiplyMatrices A B) M.
Proof.
  intros HA HM. eapply meq_trans; [|exact HM].
  apply meq_multiplyMatrices; [exact HA | apply meq_refl].
Qed.

Ltac sixteen :=
  let r := fresh "r" in
  let c := fresh "c" in
  let Hr := fresh "Hr" in
  let Hc := fresh "Hc" in
  intros r c Hr Hc;
  destruct r as [|[|[|[|r]]]]; [| | | |lia];
  (destruct c as [|[|[|[|c]]]]; [| | | |lia]);
  clear Hr Hc.

Lemma chainMatches_fold acc acc' steps Ms n M :
  meq acc acc' -> chainMatches acc' steps Ms -> Ms !! n = Some M ->
  meq (fold_left multiplyMatrices (take (S n) steps) acc) M.
Proof.
  revert acc acc' Ms n.
  induction steps as [|B steps IH]; intros acc acc' Ms n Hacc HMs Hn.
  - destruct Ms; [discriminate | contradiction].
  - destruct Ms as [|M0 Ms]; [contradiction|].
    destruct HMs as [H0 HMs].
    assert (meq (multiplyMatrices acc B) M0) as Hstep
      by (eapply meq_step; eauto).
    destruct n as [|n].
    + injection Hn as <-. exact Hstep.
    + cbn [take fold_left]. eapply (IH _ _ _ n Hstep HMs Hn).
Qed.

Lemma chainMatches_accumulated steps Ms n M :
  chainMatches identity steps Ms -> Ms !! n = Some M ->
  meq (accumulated steps (S n)) M.
Proof. apply chainMatches_fold, meq_refl. Qed.

(** The frames of a pose whose accumulated transforms are [Ms]. *)
Lemma forwardKinematics_at (a0 a1 a2 a3 a4 a5 a6 a7 a8 : R)
    (M1 M2 M3 M4 M5 M6 M7 M8 M9 M10 M11 M12 : Matrix4x4) :
  chainMatches identity (chainSteps a0 a1 a2 a3 a4 a5 a6 a7 a8)
    [M1; M2; M3; M4; M5; M6; M7; M8; M9; M10; M11; M12] ->
  forwardKinematics a0 a1 a2 a3 a4 a5 a6 a7 a8 =
  mkFrames
    (extractFrame identity 0 "Base")
    (extractFrame M1 1 "J1 (Sh_Z)")
    (extractFrame M2 2 "J2 (Sh_Y)")
    (extractFrame M3 3 "J3 (Sh_X)")
    (extractFrame M5 4 "J4 (Elb_Z)")
    (extractFrame M6 5 "J5 (Elb_Y)")
    (extractFrame M7 6 "J6 (Elb_X)")
    (extractFrame M9 7 "J7 (Wr_X)")
    (extractFrame M10 8 "J8 (Wr_Y)")
    (extractFrame M11 9 "J9 (Wr_Z)")
    (extractFrame M12 10 "EE").
Proof.
  intros H. rewrite forwardKinematics_accumulated.
  pose proof (fun n M => chainMatches_accumulated _ _ n M H) as Hn.
  rewrite (meq_extractFrame _ M1 1 _ (Hn 0%nat _ eq_refl)).
  rewrite (meq_extractFrame _ M2 2 _ (Hn 1%nat _ eq_refl)).
  rewrite (meq_extractFrame _ M3 3 _ (Hn 2%nat _ eq_refl)).
  rewrite (meq_extractFrame _ M5 4 _ (Hn 4%nat _ eq_refl)).
  rewrite (meq_extractFrame _ M6 5 _ (Hn 5%nat _ eq_refl)).
  rewrite (meq_extractFrame _ M7 6 _ (Hn 6%nat _ eq_refl)).
  rewrite (meq_extractFrame _ M9 7 _ (Hn 8%nat _ eq_refl)).
  rewrite (meq_extractFrame _ M10 8 _ (Hn 9%nat _ eq_refl)).
  rewrite (meq_extractFrame _ M11 9 _ (Hn 10%nat _ eq_refl)).
  rewrite (meq_extractFrame _ M12 10 _ (Hn 11%nat _ eq_refl)).
  reflexivity.
Qed.

Ltac product_entries :=
  sixteen;
  unfold multiplyMatrices, rotateX, rotateY, rotateZ, translate, identity, get;
  cbn [map seq fold_left nth LinkProps.length LINKS.UPPER LINKS.FOREARM
       LINKS.HAND];
  autorewrite with trig;
  pose proof h45_sqr; nra.

Ltac evaluate_chain :=
  unfold chainSteps, tripleZYX, tripleXYZ, linkTranslation;
  cbn [app chainMatches];
  repeat split; product_entries.

(** All angles zero: every rotation is the identity and the three link
    translations add up along X. *)
Lemma zero_pose_frames :
  let T4 := translate 0.45 0 0 in
  let T8 := translate 0.75 0 0 in
  forwardKinematics 0 0 0 0 0 0 0 0 0 =
  mkFrames
    (extractFrame identity 0 "Base")
    (extractFrame identity 1 "J1 (Sh_Z)")
    (extractFrame identity 2 "J2 (Sh_Y)")
    (extractFrame identity 3 "J3 (Sh_X)")
    (extractFrame T4 4 "J4 (Elb_Z)")
    (extractFrame T4 5 "J5 (Elb_Y)")
    (extractFrame T4 6 "J6 (Elb_X)")
    (extractFrame T8 7 "J7 (Wr_X)")
    (extractFrame T8 8 "J8 (Wr_Y)")
    (extractFrame T8 9 "J9 (Wr_Z)")
    (extractFrame (translate 0.9 0 0) 10 "EE").
Proof.
  intros T4 T8.
  apply (forwardKinematics_at 0 0 0 0 0 0 0 0 0
           identity identity identity T4 T4 T4 T4 T8 T8 T8 T8
           (translate 0.9 0 0)).
  subst T4 T8. evaluate_chain.
Qed.

(** C4: with all nine joint angles zero the end effector is at
    (0.9, 0, 0), the sum of the three link lengths along X. *)
Theorem zero_angles_end_effector
    (j0 j1 j2 j3 j4 j5 j6 j7 j8 : JointState.t) (rest : list JointState.t)
    (loadMass : R) (trajectory : list Vector3.t) :
  Forall (fun j => JointState.angle j = 0) [j0; j1; j2; j3; j4; j5; j6; j7; j8] ->
  exists ev,
    renderEffect (j0 :: j1 :: j2 :: j3 :: j4 :: j5 :: j6 :: j7 :: j8 :: rest)
      loadMass trajectory = Some ev
    /\ ev_endEffector ev = Vector3.mk 0.9 0 0
    /\ ev_endEffector ev
       = Vector3.mk (LinkProps.length LINKS.UPPER + LinkProps.length LINKS.FOREARM
                     + LinkProps.length LINKS.HAND) 0 0.
Proof.
  intros Hzero.
  repeat (apply Forall_cons in Hzero as [? Hzero]).
  eexists; split; [reflexivity|].
  cbn [ev_endEffector].
  replace (JointState.angle j0) with 0 by congruence.
  replace (JointState.angle j1) with 0 by congruence.
  replace (JointState.angle j2) with 0 by congruence.
  replace (JointState.angle j3) with 0 by congruence.
  replace (JointState.angle j4) with 0 by congruence.
  replace (JointState.angle j5) with 0 by congruence.
  replace (JointState.angle j6) with 0 by congruence.
  replace (JointState.angle j7) with 0 by congruence.
  replace (JointState.angle j8) with 0 by congruence.
  rewrite zero_pose_frames.
  split; [reflexivity|].
  apply Vector3_eq; cbn; lra.
Qed.

Lemma zero_angles_end_effector_witness :
  Forall (fun j => JointState.angle j = 0) (take 9 zeroJoints)
  /\ exists ev,
       renderEffect zeroJoints initialLoadMass [] = Some ev
       /\ ev_endEffector ev = Vector3.mk 0.9 0 0.
Proof.
  assert (Forall (fun j => JointState.angle j = 0) (take 9 zeroJoints)) as Hzero
    by (repeat constructor).
  split; [exact Hzero|].
  destruct (zero_angles_end_effector _ _ _ _ _ _ _ _ _
              (drop 9 zeroJoints) initialLoadMass [] Hzero)
    as (ev & Hev & Hpos & _).
  exists ev. split; [exact Hev | exact Hpos].
Defined.

(** The same on doubles: with cos 0 = 1 and sin 0 = 0 the twelve products
    give exactly the double nearest 0.9, and +0 twice. *)
Lemma zero_angles_end_effector_binary64 (Math_cos Math_sin : float -> float) :
  Math_cos 0%float = 1%float -> Math_sin 0%float = 0%float ->
  IEEE.endEffector Math_cos Math_sin 0 0 0 0 0 0 0 0 0 = (0.9, 0, 0)%float.
Proof.
  intros Hcos Hsin.
  unfold IEEE.endEffector, IEEE.rotateX, IEEE.rotateY, IEEE.rotateZ.
  replace (IEEE.toRad 0) with 0%float by reflexivity.
  rewrite Hcos, Hsin. reflexivity.
Qed.

(** ** The published torques *)

Lemma falsy_Some_nonzero v : v <> 0 -> falsy (Some v) = false.
Proof. intros H. unfold falsy. destruct (Req_dec_T v 0); [contradiction | reflexivity]. Qed.

Lemma fillTorques_cons j joints (tm : gmap string R) :
  fillTorques (j :: joints) tm =
  fillTorques joints
    (if falsy (tm !! JointState.id j) then <[JointState.id j := 0.1]> tm else tm).
Proof. reflexivity. Qed.

(** A truthy entry is never overwritten. *)
Lemma fillTorques_truthy joints (tm : gmap string R) k v :
  tm !! k = Some v -> v <> 0 -> fillTorques joints tm !! k = Some v.
Proof.
  revert tm. induction joints as [|j joints IH]; intros tm Hk Hv; [exact Hk|].
  rewrite fillTorques_cons. apply IH; [|exact Hv].
  destruct (falsy (tm !! JointState.id j)) eqn:Hf; [|exact Hk].
  destruct (decide (JointState.id j = k)) as [Heq|Hne].
  - rewrite Heq, Hk, (falsy_Some_nonzero _ Hv) in Hf. discriminate.
  - rewrite lookup_insert_ne by exact Hne. exact Hk.
Qed.

(** A missing or zero entry under the id of some joint becomes 0.1. *)
Lemma fillTorques_falsy joints (tm : gmap string R) k :
  falsy (tm !! k) = true -> k ∈ jointIds joints ->
  fillTorques joints tm !! k = Some 0.1.
Proof.
  revert tm. induction joints as [|j joints IH]; intros tm Hf Hin.
  - apply elem_of_nil in Hin. contradiction.
  - rewrite fillTorques_cons.
    destruct (decide (JointState.id j = k)) as [Heq|Hne].
    + rewrite Heq, Hf. apply fillTorques_truthy; [apply lookup_insert_eq | lra].
    + apply IH.
      * destruct (falsy (tm !! JointState.id j)); [|exact Hf].
        rewrite lookup_insert_ne by exact Hne. exact Hf.
      * unfold jointIds in Hin. cbn [map] in Hin.
        apply elem_of_cons in Hin as [Heq|Hin]; [congruence | exact Hin].
Qed.

(** A key that is the id of no joint is left as it was. *)
Lemma fillTorques_other joints (tm : gmap string R) k :
  k ∉ jointIds joints -> fillTorques joints tm !! k = tm !! k.
Proof.
  revert tm. induction joints as [|j joints IH]; intros tm Hnin; [reflexivity|].
  rewrite fillTorques_cons.
  unfold jointIds in Hnin. cbn [map] in Hnin.
  apply not_elem_of_cons in Hnin as [Hne Hnin].
  rewrite IH by exact Hnin.
  destruct (falsy (tm !! JointState.id j)); [|reflexivity].
  apply lookup_insert_ne. congruence.
Qed.

(** An entry holding [raw] under the id of some joint reads [afterFill raw]
    after the fill: zero is replaced by the placeholder as well. *)
Lemma fillTorques_holding joints (tm : gmap string R) k raw :
  tm !! k = Some raw -> k ∈ jointIds joints ->
  readTorque (fillTorques joints tm) k = afterFill raw.
Proof.
  intros Hk Hin. unfold readTorque, afterFill.
  destruct (Req_dec_T raw 0) as [Hz|Hnz].
  - rewrite (fillTorques_falsy joints tm k); [reflexivity | | exact Hin].
    rewrite Hk. unfold falsy. destruct (Req_dec_T raw 0); [reflexivity | contradiction].
  - rewrite (fillTorques_truthy joints tm k raw Hk Hnz). reflexivity.
Qed.

Section PublishedTorques.
Variables (joints : list JointState.t) (F : Frames) (loadMass : R).

Lemma torqueMap_unfold :
  torqueMap joints F loadMass =
  fillTorques joints
    (<["j7_y" := (momentJ7Y F loadMass)]> (<["j5" := (momentJ5 F loadMass)]> (<["j2" := (momentJ2 F loadMass)]> ∅))).
Proof. reflexivity. Qed.

Lemma torqueMap_j2 :
  "j2" ∈ jointIds joints ->
  readTorque (torqueMap joints F loadMass) "j2" = afterFill (momentJ2 F loadMass).
Proof.
  intros Hin. rewrite torqueMap_unfold.
  apply fillTorques_holding; [|exact Hin]. by simplify_map_eq.
Qed.

Lemma torqueMap_j5 :
  "j5" ∈ jointIds joints ->
  readTorque (torqueMap joints F loadMass) "j5" = afterFill (momentJ5 F loadMass).
Proof.
  intros Hin. rewrite torqueMap_unfold.
  apply fillTorques_holding; [|exact Hin]. by simplify_map_eq.
Qed.

Lemma torqueMap_j7_y :
  "j7_y" ∈ jointIds joints ->
  readTorque (torqueMap joints F loadMass) "j7_y" = afterFill (momentJ7Y F loadMass).
Proof.
  intros Hin. rewrite torqueMap_unfold.
  apply fillTorques_holding; [|exact Hin]. by simplify_map_eq.
Qed.

(** The three keys the stress computation reads are always present. *)
Lemma torqueMap_pivots_present k :
  k ∈ ["j2"; "j5"; "j7_y"] -> is_Some (torqueMap joints F loadMass !! k).
Proof.
  intros Hk. rewrite torqueMap_unfold.
  set (tm := <["j7_y" := (momentJ7Y F loadMass)]> (<["j5" := (momentJ5 F loadMass)]> (<["j2" := (momentJ2 F loadMass)]> ∅))).
  assert (exists raw, tm !! k = Some raw) as [raw Hraw].
  { subst tm. set_unfold. destruct Hk as [->|[->|[->|[]]]];
      eexists; by simplify_map_eq. }
  destruct (Req_dec_T raw 0) as [Hz|Hnz].
  - destruct (decide (k ∈ jointIds joints)) as [Hin|Hnin].
    + exists 0.1. apply fillTorques_falsy; [|exact Hin].
      rewrite Hraw. unfold falsy.
      destruct (Req_dec_T raw 0); [reflexivity | contradiction].
    + exists raw. rewrite fillTorques_other by exact Hnin. exact Hraw.
  - exists raw. by apply fillTorques_truthy.
Qed.

(** The id of a joint that is not one of the three pivots holds the
    placeholder. *)
Lemma torqueMap_placeholder k :
  k ∈ jointIds joints -> k ∉ ["j2"; "j5"; "j7_y"] ->
  torqueMap joints F loadMass !! k = Some 0.1.
Proof.
  intros Hin Hk. rewrite torqueMap_unfold.
  apply fillTorques_falsy; [|exact Hin].
  assert (k <> "j2" /\ k <> "j5" /\ k <> "j7_y") as (H2 & H5 & H7)
    by (set_unfold; tauto).
  rewrite !lookup_insert_ne by congruence.
  rewrite lookup_empty. reflexivity.
Qed.

End PublishedTorques.

(** C10: in the torques the render effect publishes (the [jointTorques]
    state, which the export serialises as it is), every joint whose id is
    not j2, j5 or j7_y carries the placeholder 0.1, whatever the joint
    angles and the payload mass. *)
Theorem other_joints_torque_placeholder
    (j0 j1 j2 j3 j4 j5 j6 j7 j8 : JointState.t) (rest : list JointState.t)
    (loadMass : R) (trajectory : list Vector3.t) :
  let joints := j0 :: j1 :: j2 :: j3 :: j4 :: j5 :: j6 :: j7 :: j8 :: rest in
  exists ev,
    renderEffect joints loadMass trajectory = Some ev
    /\ forall j, j ∈ joints ->
         JointState.id j ∉ ["j2"; "j5"; "j7_y"] ->
         ev_jointTorques ev !! JointState.id j = Some 0.1
         /\ torques (exportData joints ev) !! JointState.id j = Some 0.1.
Proof.
  intros joints. eexists; split; [reflexivity|].
  intros j Hj Hid. cbn [exportData torques ev_jointTorques].
  assert (JointState.id j ∈ jointIds joints) as Hin
    by (unfold jointIds; apply list_elem_of_fmap; exists j; auto).
  split; apply torqueMap_placeholder; assumption.
Qed.

Lemma other_joints_torque_placeholder_witness :
  exists ev,
    renderEffect initialJoints initialLoadMass [] = Some ev
    /\ ev_jointTorques ev !! "j1" = Some 0.1
    /\ ev_jointTorques ev !! "j9" = Some 0.1.
Proof.
  destruct (other_joints_torque_placeholder
              (JointState.mk "j1" "Shoulder Z (Yaw)" 0 0 0 (-90) 90 axis_z Shoulder)
              (JointState.mk "j2" "Shoulder Y (Pitch)" 0 0 0 (-90) 90 axis_y Shoulder)
              (JointState.mk "j3" "Shoulder X (Roll)" 0 0 0 (-45) 45 axis_x Shoulder)
              (JointState.mk "j4" "Elbow Z (Yaw)" (-180) (-180) 0 (-270) (-90) axis_z Elbow)
              (JointState.mk "j5" "Elbow Y (Pitch)" (-180) (-180) 0 (-270) (-90) axis_y Elbow)
              (JointState.mk "j6" "Elbow X (Roll)" 0 0 0 (-45) 45 axis_x Elbow)
              (JointState.mk "j7_x" "Wrist X (Roll)" 0 0 0 (-45) 45 axis_x Wrist)
              (JointState.mk "j7_y" "Wrist Y (Pitch)" 0 0 0 (-45) 45 axis_y Wrist)
              (JointState.mk "j7_z" "Wrist Z (Yaw)" 0 0 0 (-45) 45 axis_z Wrist)
              [JointState.mk "j9" "Gripper" 50 50 0 0 100 axis_x Gripper]
              initialLoadMass [])
    as (ev & Hev & Hother).
  exists ev. split; [exact Hev|]. split.
  - refine (proj1 (Hother (JointState.mk "j1" "Shoulder Z (Yaw)" 0 0 0 (-90) 90
                                          axis_z Shoulder) _ _)).
    + apply list_elem_of_here.
    + intros H. repeat (apply elem_of_cons in H as [H|H]; [discriminate H|]).
      apply elem_of_nil in H. exact H.
  - refine (proj1 (Hother (JointState.mk "j9" "Gripper" 50 50 0 0 100
                                          axis_x Gripper) _ _)).
    + do 9 apply list_elem_of_further. apply list_elem_of_here.
    + intros H. repeat (apply elem_of_cons in H as [H|H]; [discriminate H|]).
      apply elem_of_nil in H. exact H.
Defined.

(** ** Bending stress *)

(** C7: the reported stress of each pivot is its reported torque times
    OD/2, divided by I = pi (OD^4 - ID^4) / 64 with ID = OD - 2 wall, and by
    1e6, for the tube of the pivot's limb segment: the Upper Arm for the
    Shoulder, the Forearm for the Elbow, the Hand for the Wrist. *)
Theorem stress_is_bending_formula
    (j0 j1 j2 j3 j4 j5 j6 j7 j8 : JointState.t) (rest : list JointState.t)
    (loadMass : R) (trajectory : list Vector3.t) :
  let bending (torque OD wall : R) :=
    let ID := OD - 2 * wall in
    let I := PI * (OD ^ 4 - ID ^ 4) / 64 in
    torque * (OD / 2) / I / 1e6 in
  (forall torque link,
     calcStress torque link
     = bending torque (LinkProps.od link) (LinkProps.thickness link))
  /\ exists ev s e w,
       renderEffect (j0 :: j1 :: j2 :: j3 :: j4 :: j5 :: j6 :: j7 :: j8 :: rest)
         loadMass trajectory = Some ev
       /\ ev_stressResults ev = [s; e; w]
       /\ map StressResult.location [s; e; w] = ["Shoulder"; "Elbow"; "Wrist"]
       /\ map StressResult.torqueStatic [s; e; w]
          = map (readTorque (ev_jointTorques ev)) ["j2"; "j5"; "j7_y"]
       /\ StressResult.stressMPa s
          = bending (StressResult.torqueStatic s) 0.050 0.0015
       /\ StressResult.stressMPa e
          = bending (StressResult.torqueStatic e) 0.040 0.0010
       /\ StressResult.stressMPa w
          = bending (StressResult.torqueStatic w) 0.040 0.0010.
Proof.
  intros bending. split; [reflexivity|].
  do 4 eexists. split; [reflexivity|].
  cbn [ev_stressResults ev_jointTorques]. split; [reflexivity|].
  repeat split.
Qed.

(** ** The clamped time step *)

(** What a tick does to one joint, for the time step [dt] it uses. *)
Lemma stepJoint_integrates isPlaying t dt i j :
  let j' := stepJoint isPlaying t dt i j in
  let inertia :=
    match JointState.group j with
    | Shoulder => 2.5 | Elbow => 1.5 | Wrist => 0.5 | Gripper => 1.0
    end in
  JointState.velocity j'
  = JointState.velocity j
    + (120 * (JointState.targetAngle j' - JointState.angle j)
       - 15 * JointState.velocity j) / inertia * dt
  /\ JointState.angle j' = JointState.angle j + JointState.velocity j' * dt
  /\ (isPlaying = false -> JointState.targetAngle j' = JointState.targetAngle j).
Proof.
  unfold stepJoint. cbv zeta.
  cbn [JointState.velocity JointState.angle JointState.targetAngle].
  destruct (JointState.group j);
    repeat (destruct (decide _) as [?|?]; try congruence);
    repeat split; intros ->; reflexivity.
Qed.

(** C8: two ticks from the same state whose wall-clock deltas are both at
    least 0.1 s leave the same joints (so the same angles and velocities) and
    the same animation clock: those of a tick with a delta of exactly 0.1 s.
    For every delta the tick is one Euler step of the spring-damper
    controller with dt = min(delta, 0.1 s): the new velocity is the old one
    plus (120 error - 15 velocity) / inertia times dt, the new angle the old
    one plus the new velocity times dt, and the animation clock, if it runs,
    advances by dt; below 0.1 s, dt is the delta itself. *)
Theorem animate_step_is_clamped (s : SimState) (time1 time2 : R) :
  0.1 <= (time1 - lastTime s) / 1000 ->
  0.1 <= (time2 - lastTime s) / 1000 ->
  (joints (animate time1 s) = joints (animate time2 s)
   /\ timeRef (animate time1 s) = timeRef (animate time2 s)
   /\ joints (animate time1 s) = joints (animate (lastTime s + 100) s)
   /\ joints (animate time1 s) =
      imap (stepJoint (isPlayingRef s)
              (if isPlayingRef s then timeRef s + 0.1 else timeRef s) 0.1)
           (joints s))
  /\ forall time : R,
       let delta := (time - lastTime s) / 1000 in
       let dt := Rmin delta 0.1 in
       (delta <= 0.1 -> dt = delta)
       /\ (0.1 <= delta -> dt = 0.1)
       /\ timeRef (animate time s)
          = (if isPlayingRef s then timeRef s + dt else timeRef s)
       /\ lastTime (animate time s) = time
       /\ forall (i : nat) (j : JointState.t),
            joints s !! i = Some j ->
            let inertia :=
              match JointState.group j with
              | Shoulder => 2.5 | Elbow => 1.5 | Wrist => 0.5 | Gripper => 1.0
              end in
            exists j',
              joints (animate time s) !! i = Some j'
              /\ JointState.velocity j'
                 = JointState.velocity j
                   + (120 * (JointState.targetAngle j' - JointState.angle j)
                      - 15 * JointState.velocity j) / inertia * dt
              /\ JointState.angle j'
                 = JointState.angle j + JointState.velocity j' * dt
              /\ (isPlayingRef s = false ->
                  JointState.targetAngle j' = JointState.targetAngle j).
Proof.
  intros H1 H2. split.
  - assert (forall t, 0.1 <= (t - lastTime s) / 1000 ->
              Rmin ((t - lastTime s) / 1000) 0.1 = 0.1) as Hmin
      by (intros t Ht; apply Rmin_right; exact Ht).
    assert (0.1 <= (lastTime s + 100 - lastTime s) / 1000) as H3 by lra.
    unfold animate; cbn [joints timeRef].
    rewrite (Hmin _ H1), (Hmin _ H2), (Hmin _ H3).
    repeat split.
  - intros time delta dt.
    split; [intros Hle; apply Rmin_left; exact Hle|].
    split; [intros Hge; apply Rmin_right; exact Hge|].
    split; [reflexivity|]. split; [reflexivity|].
    intros i j Hj inertia. unfold animate. cbn [joints].
    rewrite list_lookup_imap, Hj. cbn [fmap option_fmap option_map].
    eexists. split; [reflexivity|].
    apply stepJoint_integrates.
Qed.

(** A 5 s gap and a 0.1 s gap after the shoulder-pitch slider went from 0
    to 30: both ticks take the joint to 14.4 degrees at 144 degrees per
    second, the Euler step for dt = 0.1 s; a 16 ms gap takes it to
    0.36864 degrees at 23.04 degrees per second, the step for
    dt = 0.016 s. *)
Lemma animate_step_is_clamped_witness :
  let s := mkSimState (handleSliderChange "j2" 30 initialJoints) 0 0 false in
  0.1 <= (5000 - lastTime s) / 1000
  /\ 0.1 <= (100 - lastTime s) / 1000
  /\ joints (animate 5000 s) = joints (animate 100 s)
  /\ (exists j', joints (animate 5000 s) !! 1%nat = Some j'
                 /\ JointState.velocity j' = 144
                 /\ JointState.angle j' = 14.4)
  /\ (exists j', joints (animate 16 s) !! 1%nat = Some j'
                 /\ JointState.velocity j' = 23.04
                 /\ JointState.angle j' = 0.36864).
Proof.
  intros s.
  assert (0.1 <= (5000 - lastTime s) / 1000) as H1 by (cbn [s lastTime]; lra).
  assert (0.1 <= (100 - lastTime s) / 1000) as H2 by (cbn [s lastTime]; lra).
  destruct (animate_step_is_clamped s 5000 100 H1 H2) as [(Hsame & _) Hstep].
  split; [exact H1|]. split; [exact H2|]. split; [exact Hsame|].
  assert (joints s !! 1%nat
          = Some (JointState.mk "j2" "Shoulder Y (Pitch)" 0 30 0 (-90) 90
                    axis_y Shoulder)) as Hj by reflexivity.
  split.
  - destruct (Hstep 5000) as (_ & Hdt & _ & _ & Hjoint).
    destruct (Hjoint _ _ Hj) as (j' & Hj' & Hv & Ha & Ht).
    exists j'. split; [exact Hj'|].
    cbv zeta in Hv, Ha. rewrite (Hdt H1) in Hv, Ha.
    rewrite (Ht eq_refl) in Hv.
    cbn [JointState.velocity JointState.angle JointState.targetAngle
         JointState.group] in Hv, Ha.
    assert (JointState.velocity j' = 144) as Hv' by (rewrite Hv; lra).
    split; [exact Hv'|]. rewrite Ha, Hv'. lra.
  - destruct (Hstep 16) as (Hdt & _ & _ & _ & Hjoint).
    destruct (Hjoint _ _ Hj) as (j' & Hj' & Hv & Ha & Ht).
    exists j'. split; [exact Hj'|].
    cbv zeta in Hv, Ha.
    rewrite (Hdt ltac:(cbn [s lastTime]; lra)) in Hv, Ha.
    rewrite (Ht eq_refl) in Hv.
    cbn [JointState.velocity JointState.angle JointState.targetAngle
         JointState.group s lastTime] in Hv, Ha.
    assert (JointState.velocity j' = 23.04) as Hv' by (rewrite Hv; lra).
    split; [exact Hv'|]. rewrite Ha, Hv'. lra.
Defined.

(** ** The trajectory trail *)

Lemma sliceLast_length {A : Type} (n : nat) (l : list A) :
  (List.length (sliceLast n l) <= n)%nat.
Proof. unfold sliceLast. rewrite length_drop. lia. Qed.

Lemma sliceLast_short {A : Type} (n : nat) (l : list A) :
  (List.length l <= n)%nat -> sliceLast n l = l.
Proof.
  intros H. unfold sliceLast.
  replace (List.length l - n)%nat with 0%nat by lia. reflexivity.
Qed.

Lemma updateTrajectory_length prev endEffector :
  (List.length prev <= 150)%nat ->
  (List.length (updateTrajectory prev endEffector) <= 150)%nat.
Proof.
  intros H. unfold updateTrajectory.
  destruct (nearLast prev endEffector); [exact H | apply sliceLast_length].
Qed.

(** C9: the trajectory never holds more than 150 points; a point appended
    to a trajectory of 150 points evicts the oldest one, and the other 149
    followed by the new point remain, in order; a shorter trajectory just
    grows by the new point. *)
Theorem trajectory_keeps_last_150 :
  (forall t, trajectoryReachable t -> (List.length t <= 150)%nat)
  /\ (forall prev endEffector,
        List.length prev = 150%nat ->
        nearLast prev endEffector = false ->
        updateTrajectory prev endEffector = drop 1 prev ++ [endEffector]
        /\ List.length (updateTrajectory prev endEffector) = 150%nat)
  /\ (forall prev endEffector,
        (List.length prev < 150)%nat ->
        nearLast prev endEffector = false ->
        updateTrajectory prev endEffector = prev ++ [endEffector]).
Proof.
  split; [|split].
  - intros t Ht. induction Ht as [|prev ee _ IH]; [cbn; lia|].
    apply updateTrajectory_length, IH.
  - intros prev ee Hlen Hnear. unfold updateTrajectory. rewrite Hnear.
    unfold sliceLast. rewrite length_app, Hlen. cbn [List.length].
    replace (150 + 1 - 150)%nat with 1%nat by lia.
    destruct prev as [|p prev]; [discriminate Hlen|].
    cbn [app drop]. rewrite drop_0. split; [reflexivity|].
    rewrite length_app. cbn [List.length] in *. lia.
  - intros prev ee Hlen Hnear. unfold updateTrajectory. rewrite Hnear.
    apply sliceLast_short. rewrite length_app. cbn [List.length]. lia.
Qed.

Lemma fullTrail_not_near : nearLast fullTrail (Vector3.mk 0.9 0 0) = false.
Proof.
  unfold nearLast.
  replace (last fullTrail) with (Some (Vector3.mk (INR 149 * 0.006) 0 0))
    by reflexivity.
  cbn [Vector3.x Vector3.y].
  replace (INR 149) with 149 by (rewrite INR_IZR_INZ; reflexivity).
  destruct (Rlt_dec (Rabs (149 * 0.006 - 0.9)) 0.005) as [Hlt|_];
    [|reflexivity].
  rewrite Rabs_left in Hlt by lra. lra.
Qed.

Lemma trajectory_keeps_last_150_witness :
  List.length fullTrail = 150%nat
  /\ nearLast fullTrail (Vector3.mk 0.9 0 0) = false
  /\ updateTrajectory fullTrail (Vector3.mk 0.9 0 0)
     = drop 1 fullTrail ++ [Vector3.mk 0.9 0 0].
Proof.
  split; [reflexivity|]. split; [exact fullTrail_not_near|].
  apply (proj1 (proj2 trajectory_keeps_last_150)).
  - reflexivity.
  - exact fullTrail_not_near.
Defined.

(** ** Moments *)

Lemma magnitude_nonneg v : 0 <= magnitude v.
Proof. apply sqrt_pos. Qed.

Lemma magnitude_eq x y z t :
  0 <= t -> x * x + y * y + z * z = t * t ->
  magnitude (Vector3.mk x y z) = t.
Proof.
  intros Ht H. unfold magnitude. cbn [Vector3.x Vector3.y Vector3.z].
  rewrite H. apply sqrt_square. exact Ht.
Qed.

Lemma magnitude_vscale k v : 0 <= k -> magnitude (vscale k v) = k * magnitude v.
Proof.
  intros Hk. unfold magnitude, vscale. cbn [Vector3.x Vector3.y Vector3.z].
  set (s := Vector3.x v * Vector3.x v + Vector3.y v * Vector3.y v
            + Vector3.z v * Vector3.z v).
  replace (k * Vector3.x v * (k * Vector3.x v) + k * Vector3.y v * (k * Vector3.y v)
           + k * Vector3.z v * (k * Vector3.z v)) with (k * k * s)
    by (unfold s; ring).
  rewrite sqrt_mult_alt by nra. rewrite sqrt_square by exact Hk. reflexivity.
Qed.

Lemma totalMoment_snoc pivot loads L :
  totalMoment pivot (loads ++ [L])
  = vadd (totalMoment pivot loads) (loadMoment pivot L).
Proof. unfold totalMoment. rewrite fold_left_app. reflexivity. Qed.

Lemma loadSet_drop F loadMass k :
  (k <= 3)%nat ->
  drop k (loadSet F loadMass)
  = drop k (linkLoads F) ++ [Load.mk loadMass (endEffector F)].
Proof.
  intros Hk. destruct k as [|[|[|[|k]]]]; try lia; reflexivity.
Qed.

(** The net moment vector is the moment of the links plus the payload mass
    times the moment of a unit mass at the end effector. *)
Lemma totalMoment_payload F loadMass pivot k :
  (k <= 3)%nat ->
  totalMoment pivot (drop k (loadSet F loadMass))
  = vadd (linkMoment F pivot k) (vscale loadMass (unitPayloadMoment F pivot)).
Proof.
  intros Hk. rewrite loadSet_drop by exact Hk. rewrite totalMoment_snoc.
  unfold linkMoment, unitPayloadMoment.
  f_equal. unfold loadMoment, crossProduct, vscale, vsub.
  cbn [Load.pos Load.mass Vector3.x Vector3.y Vector3.z].
  apply Vector3_eq; cbn [Vector3.x Vector3.y Vector3.z]; ring.
Qed.

(** Where the moments of links and payload do not oppose each other, the
    net moment is positive and grows with the payload. *)
Lemma moment_grows_when_aligned F pivot k mass1 mass2 :
  (k <= 3)%nat ->
  0 < dot (linkMoment F pivot k) (unitPayloadMoment F pivot) ->
  0 <= mass1 -> mass1 <= mass2 ->
  0 < calculateMoment pivot (drop k (loadSet F mass1))
  /\ calculateMoment pivot (drop k (loadSet F mass1))
     <= calculateMoment pivot (drop k (loadSet F mass2)).
Proof.
  intros Hk Hdot Hm1 Hm12. unfold calculateMoment.
  rewrite !totalMoment_payload by exact Hk.
  destruct (linkMoment F pivot k) as [ax ay az].
  destruct (unitPayloadMoment F pivot) as [ux uy uz].
  unfold dot in Hdot. unfold magnitude, vadd, vscale.
  cbn [Vector3.x Vector3.y Vector3.z] in *.
  set (d := ax * ux + ay * uy + az * uz) in *.
  set (aa := ax * ax + ay * ay + az * az).
  set (uu := ux * ux + uy * uy + uz * uz).
  assert (0 <= uu) by (unfold uu; nra).
  assert (0 < aa) as Haa.
  { destruct (Rle_lt_dec aa 0) as [Hle|Hlt]; [|exact Hlt].
    assert (ax = 0 /\ ay = 0 /\ az = 0) as (-> & -> & ->)
      by (unfold aa in Hle; repeat split; nra).
    unfold d in Hdot. lra. }
  assert (forall m, (ax + m * ux) * (ax + m * ux) + (ay + m * uy) * (ay + m * uy)
                    + (az + m * uz) * (az + m * uz)
                    = aa + 2 * m * d + m * m * uu) as Hq
    by (intros m; unfold aa, d, uu; ring).
  rewrite !Hq.
  assert (0 <= mass1 * d) by (apply Rmult_le_pos; lra).
  assert (0 <= mass1 * mass1 * uu) by (apply Rmult_le_pos; [nra | lra]).
  assert (0 <= (mass2 - mass1) * d) by (apply Rmult_le_pos; lra).
  assert (0 <= (mass2 * mass2 - mass1 * mass1) * uu)
    by (apply Rmult_le_pos; [nra | lra]).
  split.
  - apply sqrt_lt_R0. lra.
  - apply sqrt_le_1_alt. lra.
Qed.

(** ** Stress and safety factor of a torque *)

Lemma inertia_UPPER_pos :
  0 < calculateInertia (LinkProps.od LINKS.UPPER) (LinkProps.thickness LINKS.UPPER).
Proof.
  unfold calculateInertia. cbn [LinkProps.od LinkProps.thickness LINKS.UPPER pow].
  pose proof PI_RGT_0. nra.
Qed.

Lemma inertia_FOREARM_pos :
  0 < calculateInertia (LinkProps.od LINKS.FOREARM)
        (LinkProps.thickness LINKS.FOREARM).
Proof.
  unfold calculateInertia.
  cbn [LinkProps.od LinkProps.thickness LINKS.FOREARM pow].
  pose proof PI_RGT_0. nra.
Qed.

Lemma inertia_HAND_pos :
  0 < calculateInertia (LinkProps.od LINKS.HAND) (LinkProps.thickness LINKS.HAND).
Proof.
  unfold calculateInertia. cbn [LinkProps.od LinkProps.thickness LINKS.HAND pow].
  pose proof PI_RGT_0. nra.
Qed.

Lemma armLink_UPPER : armLink LINKS.UPPER.
Proof. split; [cbn; lra | apply inertia_UPPER_pos]. Qed.

Lemma armLink_FOREARM : armLink LINKS.FOREARM.
Proof. split; [cbn; lra | apply inertia_FOREARM_pos]. Qed.

Lemma armLink_HAND : armLink LINKS.HAND.
Proof. split; [cbn; lra | apply inertia_HAND_pos]. Qed.

Lemma calcStress_scale torque link :
  armLink link -> calcStress torque link = torque * calcStress 1 link.
Proof.
  intros [_ HI]. unfold calcStress. cbv zeta. field. lra.
Qed.

Lemma calcStress_unit_pos link : armLink link -> 0 < calcStress 1 link.
Proof.
  intros [Hod HI]. unfold calcStress. cbv zeta.
  apply Rdiv_lt_0_compat; [|lra].
  apply Rdiv_lt_0_compat; [lra | exact HI].
Qed.

Lemma calcStress_pos torque link :
  armLink link -> 0 < torque -> 0 < calcStress torque link.
Proof.
  intros Hl Ht. rewrite calcStress_scale by exact Hl.
  apply Rmult_lt_0_compat; [exact Ht | apply calcStress_unit_pos, Hl].
Qed.

(** A larger torque gives a larger stress and a smaller safety factor. *)
Lemma safetyFactor_antitone torque1 torque2 link :
  armLink link -> 0 < torque1 -> torque1 <= torque2 ->
  AL6061_YIELD_STRENGTH / calcStress torque2 link
  <= AL6061_YIELD_STRENGTH / calcStress torque1 link.
Proof.
  intros Hl H1 H12.
  pose proof (calcStress_unit_pos link Hl) as Hu.
  rewrite (calcStress_scale torque1), (calcStress_scale torque2) by exact Hl.
  unfold AL6061_YIELD_STRENGTH, Rdiv.
  apply Rmult_le_compat_l; [lra|].
  apply Rinv_le_contravar; [nra | nra].
Qed.

Lemma safetyFactor_strictly_antitone torque1 torque2 link :
  armLink link -> 0 < torque1 -> torque1 < torque2 ->
  AL6061_YIELD_STRENGTH / calcStress torque2 link
  < AL6061_YIELD_STRENGTH / calcStress torque1 link.
Proof.
  intros Hl H1 H12.
  pose proof (calcStress_unit_pos link Hl) as Hu.
  rewrite (calcStress_scale torque1), (calcStress_scale torque2) by exact Hl.
  unfold AL6061_YIELD_STRENGTH, Rdiv.
  apply Rmult_lt_compat_l; [lra|].
  assert (0 < torque1 * calcStress 1 link) by nra.
  assert (0 < torque2 * calcStress 1 link) by nra.
  apply Rinv_lt_contravar; [apply Rmult_lt_0_compat; assumption | nra].
Qed.

Lemma afterFill_pos raw : 0 <= raw -> 0 < afterFill raw.
Proof.
  intros H. unfold afterFill. destruct (Req_dec_T raw 0); lra.
Qed.

Lemma afterFill_nonzero raw : raw <> 0 -> afterFill raw = raw.
Proof.
  intros H. unfold afterFill. destruct (Req_dec_T raw 0); [contradiction | reflexivity].
Qed.

(** ** The initial pose *)

(** Shoulder angles 0, elbow yaw and pitch -180, wrist angles 0: the two
    half turns of the elbow flip the y and z axes and leave the arm
    stretched along X. *)
Lemma initial_pose_frames :
  let flipped x := [ [1; 0; 0; x]; [0; -1; 0; 0]; [0; 0; -1; 0]; [0; 0; 0; 1] ] in
  let T5 := [ [-1; 0; 0; 0.45]; [0; -1; 0; 0]; [0; 0; 1; 0]; [0; 0; 0; 1] ] in
  forwardKinematics 0 0 0 (-180) (-180) 0 0 0 0 =
  mkFrames
    (extractFrame identity 0 "Base")
    (extractFrame identity 1 "J1 (Sh_Z)")
    (extractFrame identity 2 "J2 (Sh_Y)")
    (extractFrame identity 3 "J3 (Sh_X)")
    (extractFrame T5 4 "J4 (Elb_Z)")
    (extractFrame (flipped 0.45) 5 "J5 (Elb_Y)")
    (extractFrame (flipped 0.45) 6 "J6 (Elb_X)")
    (extractFrame (flipped 0.75) 7 "J7 (Wr_X)")
    (extractFrame (flipped 0.75) 8 "J8 (Wr_Y)")
    (extractFrame (flipped 0.75) 9 "J9 (Wr_Z)")
    (extractFrame (flipped 0.9) 10 "EE").
Proof.
  intros flipped T5.
  apply (forwardKinematics_at 0 0 0 (-180) (-180) 0 0 0 0
           identity identity identity (translate 0.45 0 0)
           T5 (flipped 0.45) (flipped 0.45) (flipped 0.75)
           (flipped 0.75) (flipped 0.75) (flipped 0.75) (flipped 0.9)).
  subst flipped T5. evaluate_chain.
Qed.

Ltac moment_value :=
  unfold momentJ2, momentJ5, momentJ7Y, calculateMoment, totalMoment, loadSet,
    cogUpper, cogFore, cogHand, endEffector, lerpVector, crossProduct,
    extractFrame, get, identity, translate;
  cbn [drop fold_left nth
       frameJ2 frameJ3 frameJ4 frameJ5 frameJ6 frameJ7X frameJ7Y frameJ7Z
       endEffectorFrame FrameData.pos Vector3.x Vector3.y Vector3.z
       Load.mass Load.pos LinkProps.mass LinkProps.cogRatio
       LINKS.UPPER LINKS.FOREARM LINKS.HAND];
  apply magnitude_eq; unfold GRAVITY.

Lemma initial_pose_moments (loadMass : R) :
  0 <= loadMass ->
  let F := forwardKinematics 0 0 0 (-180) (-180) 0 0 0 0 in
  momentJ2 F loadMass = GRAVITY * (2.0625 + 0.9 * loadMass)
  /\ momentJ5 F loadMass = GRAVITY * (0.6 + 0.45 * loadMass)
  /\ momentJ7Y F loadMass = GRAVITY * (0.075 + 0.15 * loadMass).
Proof.
  intros Hm F. unfold F. rewrite initial_pose_frames.
  repeat split; moment_value; nra.
Qed.

Lemma initialJoints_ids :
  jointIds initialJoints =
  ["j1"; "j2"; "j3"; "j4"; "j5"; "j6"; "j7_x"; "j7_y"; "j7_z"; "j9"].
Proof. reflexivity. Qed.

Lemma pivots_among_ids joints :
  jointIds joints = jointIds initialJoints ->
  "j2" ∈ jointIds joints /\ "j5" ∈ jointIds joints /\ "j7_y" ∈ jointIds joints.
Proof. intros ->. rewrite initialJoints_ids. set_solver. Qed.

(** The published torques of the initial state under a payload. *)
Lemma initial_pose_torques (loadMass : R) :
  0 <= loadMass ->
  let tm := torqueMap initialJoints
              (forwardKinematics 0 0 0 (-180) (-180) 0 0 0 0) loadMass in
  readTorque tm "j2" = GRAVITY * (2.0625 + 0.9 * loadMass)
  /\ readTorque tm "j5" = GRAVITY * (0.6 + 0.45 * loadMass)
  /\ readTorque tm "j7_y" = GRAVITY * (0.075 + 0.15 * loadMass).
Proof.
  intros Hm tm.
  destruct (pivots_among_ids initialJoints eq_refl) as (H2 & H5 & H7).
  destruct (initial_pose_moments loadMass Hm) as (M2 & M5 & M7).
  unfold tm.
  rewrite torqueMap_j2, torqueMap_j5, torqueMap_j7_y by assumption.
  rewrite M2, M5, M7.
  rewrite !afterFill_nonzero by (unfold GRAVITY; nra).
  auto.
Qed.

(** ** Payload and net moment *)

(** C2, as the specification states it, fails on the initial state: with
    the payload doubled from 5 kg to 10 kg the three published moments go
    from 9.81 * 6.5625, 9.81 * 2.85 and 9.81 * 0.825 to 9.81 * 11.0625,
    9.81 * 5.1 and 9.81 * 1.575; none of them doubles, because the link masses
    contribute a moment that does not depend on the payload. *)
Lemma doubled_payload_moment_not_doubled :
  exists ev5 ev10,
    renderEffect initialJoints 5 [] = Some ev5
    /\ renderEffect initialJoints 10 [] = Some ev10
    /\ Forall
         (fun key =>
            readTorque (ev_jointTorques ev10) key
            <> 2 * readTorque (ev_jointTorques ev5) key)
         ["j2"; "j5"; "j7_y"]
    /\ readTorque (ev_jointTorques ev5) "j2" = 9.81 * 6.5625
    /\ readTorque (ev_jointTorques ev10) "j2" = 9.81 * 11.0625.
Proof.
  do 2 eexists. split; [reflexivity|]. split; [reflexivity|].
  cbn [ev_jointTorques initialJoints JointState.angle].
  destruct (initial_pose_torques 5) as (A2 & A5 & A7); [lra|].
  destruct (initial_pose_torques 10) as (B2 & B5 & B7); [lra|].
  split; [repeat constructor|split].
  all: rewrite ?A2, ?A5, ?A7, ?B2, ?B5, ?B7; unfold GRAVITY; lra.
Qed.

(** C2, amended: for fixed joint angles the net moment vector about each
    pivot (J2 with all loads, J5 without the upper arm, J7_Y without upper
    arm and forearm) is the moment of the link masses plus the payload mass
    times the moment of a unit mass at the end effector.  Doubling the payload
    doubles the payload's share of the net moment vector, in magnitude too;
    the reported magnitude is that of the whole sum. *)
Theorem payload_moment_is_affine (a0 a1 a2 a3 a4 a5 a6 a7 a8 loadMass : R) :
  let F := forwardKinematics a0 a1 a2 a3 a4 a5 a6 a7 a8 in
  Forall
    (fun '(pivot, k) =>
       let M := fun mass => totalMoment pivot (drop k (loadSet F mass)) in
       let unit := unitPayloadMoment F pivot in
       M loadMass = vadd (M 0) (vscale loadMass unit)
       /\ vsub (M (2 * loadMass)) (M 0) = vscale 2 (vsub (M loadMass) (M 0))
       /\ magnitude (vsub (M (2 * loadMass)) (M 0))
          = 2 * magnitude (vsub (M loadMass) (M 0))
       /\ calculateMoment pivot (drop k (loadSet F loadMass))
          = magnitude (M loadMass))
    [ (FrameData.pos (frameJ2 F), 0%nat);
      (FrameData.pos (frameJ5 F), 1%nat);
      (FrameData.pos (frameJ7Y F), 2%nat) ].
Proof.
  intros F.
  assert (forall pivot k, (k <= 3)%nat ->
            let M := fun mass => totalMoment pivot (drop k (loadSet F mass)) in
            let unit := unitPayloadMoment F pivot in
            M loadMass = vadd (M 0) (vscale loadMass unit)
            /\ vsub (M (2 * loadMass)) (M 0) = vscale 2 (vsub (M loadMass) (M 0))
            /\ magnitude (vsub (M (2 * loadMass)) (M 0))
               = 2 * magnitude (vsub (M loadMass) (M 0))
            /\ calculateMoment pivot (drop k (loadSet F loadMass))
               = magnitude (M loadMass)) as Hall.
  { intros pivot k Hk M unit.
    assert (forall mass,
              M mass = vadd (linkMoment F pivot k) (vscale mass unit)) as HM
      by (intros mass; apply totalMoment_payload, Hk).
    assert (vsub (M (2 * loadMass)) (M 0) = vscale 2 (vsub (M loadMass) (M 0)))
      as Hdouble.
    { rewrite !HM. apply Vector3_eq;
        cbn [vadd vsub vscale Vector3.x Vector3.y Vector3.z]; ring. }
    split; [|split; [exact Hdouble | split; [|reflexivity]]].
    - rewrite !HM. apply Vector3_eq;
        cbn [vadd vsub vscale Vector3.x Vector3.y Vector3.z]; ring.
    - rewrite Hdouble. apply magnitude_vscale. lra. }
  repeat constructor; apply Hall; lia.
Qed.

(** ** A folded pose *)

Lemma foldedJoints_in_range :
  Forall (fun j => JointState.min j <= JointState.angle j <= JointState.max j)
         foldedJoints.
Proof. repeat constructor; cbn; lra. Qed.

Lemma folded_pose_frames :
  let h := h45 in
  let up p := [ [h; 0; - h; p]; [0; 1; 0; 0]; [h; 0; h; p]; [0; 0; 0; 1] ] in
  let T5 := [ [- h; 0; - h; 0.45 * h]; [0; -1; 0; 0];
              [- h; 0; h; 0.45 * h]; [0; 0; 0; 1] ] in
  let back px pz := [ [- h; 0; h; px]; [0; -1; 0; 0];
                      [h; 0; h; pz]; [0; 0; 0; 1] ] in
  let level px := [ [-1; 0; 0; px]; [0; -1; 0; 0];
                    [0; 0; 1; 0.75 * h]; [0; 0; 0; 1] ] in
  forwardKinematics 0 (-45) 0 (-180) (-90) 0 0 45 0 =
  mkFrames
    (extractFrame identity 0 "Base")
    (extractFrame identity 1 "J1 (Sh_Z)")
    (extractFrame (up 0) 2 "J2 (Sh_Y)")
    (extractFrame (up 0) 3 "J3 (Sh_X)")
    (extractFrame T5 4 "J4 (Elb_Z)")
    (extractFrame (back (0.45 * h) (0.45 * h)) 5 "J5 (Elb_Y)")
    (extractFrame (back (0.45 * h) (0.45 * h)) 6 "J6 (Elb_X)")
    (extractFrame (back (0.15 * h) (0.75 * h)) 7 "J7 (Wr_X)")
    (extractFrame (level (0.15 * h)) 8 "J8 (Wr_Y)")
    (extractFrame (level (0.15 * h)) 9 "J9 (Wr_Z)")
    (extractFrame (level (0.15 * h - 0.15)) 10 "EE").
Proof.
  intros h up T5 back level.
  apply (forwardKinematics_at 0 (-45) 0 (-180) (-90) 0 0 45 0
           identity (up 0) (up 0) (up (0.45 * h))
           T5 (back (0.45 * h) (0.45 * h)) (back (0.45 * h) (0.45 * h))
           (back (0.15 * h) (0.75 * h))
           (back (0.15 * h) (0.75 * h)) (level (0.15 * h)) (level (0.15 * h))
           (level (0.15 * h - 0.15))).
  subst h up T5 back level. evaluate_chain.
Qed.

Lemma h45_bounds : 0.7 < h45 < 0.71.
Proof. pose proof h45_sqr. pose proof h45_pos. split; nra. Qed.

(** The shoulder moment of the folded pose falls as the payload grows. *)
Lemma folded_pose_shoulder_moment (loadMass : R) :
  0 <= loadMass <= 10 ->
  momentJ2 (forwardKinematics 0 (-45) 0 (-180) (-90) 0 0 45 0) loadMass
  = GRAVITY * (0.9375 * h45 - 0.075 - loadMass * (0.15 - 0.15 * h45)).
Proof.
  intros Hm. rewrite folded_pose_frames.
  pose proof h45_bounds.
  moment_value; nra.
Qed.

(** ** Payload and safety factor *)

Lemma shoulder_result (tm : gmap string R) :
  stressResults tm !! 0%nat
  = Some (StressResult.mk "Shoulder" (readTorque tm "j2") 0
            (calcStress (readTorque tm "j2") LINKS.UPPER)
            (AL6061_YIELD_STRENGTH / calcStress (readTorque tm "j2") LINKS.UPPER)
            (getStressColor (calcStress (readTorque tm "j2") LINKS.UPPER))).
Proof. reflexivity. Qed.

(** C3, as the specification states it, fails on the folded pose: raising
    the payload from 5 kg to 10 kg lowers the net moment at the shoulder,
    from 9.81 (1.6875 h - 0.825) to 9.81 (2.4375 h - 1.575) with
    h = cos 45 degrees, and so raises the Shoulder safety factor. *)
Lemma heavier_payload_raises_safety_factor :
  exists ev5 ev10 s5 s10,
    renderEffect foldedJoints 5 [] = Some ev5
    /\ renderEffect foldedJoints 10 [] = Some ev10
    /\ ev_stressResults ev5 !! 0%nat = Some s5
    /\ ev_stressResults ev10 !! 0%nat = Some s10
    /\ StressResult.location s5 = "Shoulder"
    /\ StressResult.location s10 = "Shoulder"
    /\ StressResult.torqueStatic s5 = 9.81 * (1.6875 * h45 - 0.825)
    /\ StressResult.torqueStatic s10 = 9.81 * (2.4375 * h45 - 1.575)
    /\ StressResult.torqueStatic s10 < StressResult.torqueStatic s5
    /\ StressResult.safetyFactor s5 < StressResult.safetyFactor s10.
Proof.
  set (F := forwardKinematics 0 (-45) 0 (-180) (-90) 0 0 45 0).
  assert (forall m, 0 <= m <= 10 ->
            readTorque (torqueMap foldedJoints F m) "j2"
            = GRAVITY * (0.9375 * h45 - 0.075 - m * (0.15 - 0.15 * h45))) as Ht.
  { intros m Hm.
    destruct (pivots_among_ids foldedJoints eq_refl) as (H2 & _).
    rewrite torqueMap_j2 by exact H2. unfold F.
    rewrite folded_pose_shoulder_moment by exact Hm.
    apply afterFill_nonzero. pose proof h45_bounds. unfold GRAVITY. nra. }
  exists (mkEvaluation (allFrames F) (endEffector F) (reach F)
            (torqueMap foldedJoints F 5)
            (stressResults (torqueMap foldedJoints F 5))
            (updateTrajectory [] (endEffector F))).
  exists (mkEvaluation (allFrames F) (endEffector F) (reach F)
            (torqueMap foldedJoints F 10)
            (stressResults (torqueMap foldedJoints F 10))
            (updateTrajectory [] (endEffector F))).
  do 2 eexists.
  split; [reflexivity|]. split; [reflexivity|].
  cbn [ev_stressResults].
  split; [apply shoulder_result|]. split; [apply shoulder_result|].
  cbn [StressResult.location StressResult.torqueStatic StressResult.safetyFactor].
  split; [reflexivity|]. split; [reflexivity|].
  rewrite (Ht 5), (Ht 10) by lra.
  pose proof h45_bounds as Hh.
  assert (0 < GRAVITY * (0.9375 * h45 - 0.075 - 10 * (0.15 - 0.15 * h45)))
    by (unfold GRAVITY; nra).
  assert (GRAVITY * (0.9375 * h45 - 0.075 - 10 * (0.15 - 0.15 * h45))
          < GRAVITY * (0.9375 * h45 - 0.075 - 5 * (0.15 - 0.15 * h45)))
    by (unfold GRAVITY; nra).
  split; [unfold GRAVITY; lra|]. split; [unfold GRAVITY; lra|].
  split; [assumption|].
  apply safetyFactor_strictly_antitone; [apply armLink_UPPER | assumption..].
Qed.

Section WristMoment.
Variables a0 a1 a2 a3 a4 a5 a6 a7 a8 : R.

Let F := forwardKinematics a0 a1 a2 a3 a4 a5 a6 a7 a8.


End WristMoment.

Lemma joints_with_initial_ids joints :
  jointIds joints = jointIds initialJoints ->
  exists j0 j1 j2 j3 j4 j5 j6 j7 j8 j9,
    joints = [j0; j1; j2; j3; j4; j5; j6; j7; j8; j9].
Proof.
  intros H. rewrite initialJoints_ids in H. unfold jointIds in H.
  do 10 (destruct joints as [|? joints]; [discriminate H|]).
  destruct joints; [|discriminate H].
  repeat eexists.
Qed.

(** Every published pivot torque is positive: the moment is a magnitude,
    and a zero is replaced by the placeholder. *)
Lemma pivot_torques_positive joints F loadMass :
  jointIds joints = jointIds initialJoints ->
  let tm := torqueMap joints F loadMass in
  0 < readTorque tm "j2" /\ 0 < readTorque tm "j5" /\ 0 < readTorque tm "j7_y".
Proof.
  intros Hids tm. destruct (pivots_among_ids joints Hids) as (H2 & H5 & H7).
  unfold tm. rewrite torqueMap_j2, torqueMap_j5, torqueMap_j7_y by assumption.
  repeat split; apply afterFill_pos, magnitude_nonneg.
Qed.

Lemma jointIds_imap (f : nat -> JointState.t -> JointState.t) joints :
  (forall i j, JointState.id (f i j) = JointState.id j) ->
  jointIds (imap f joints) = jointIds joints.
Proof.
  revert f. induction joints as [|j joints IH]; intros f Hf; [reflexivity|].
  unfold jointIds in *. cbn [imap map]. rewrite Hf. f_equal.
  apply IH. intros i j'. apply Hf.
Qed.

(** No handler adds, removes or renames a joint. *)
Lemma simReachable_ids s :
  simReachable s -> jointIds (joints s) = jointIds initialJoints.
Proof.
  induction 1 as [lt|time s _ IH|id val s _ IH|s _ IH|playing s _ IH];
    cbn [joints animate]; [reflexivity|..|exact IH]; rewrite <- IH.
  - apply jointIds_imap. reflexivity.
  - unfold jointIds, handleSliderChange. rewrite map_map.
    apply map_ext. intros j. destruct (decide _); reflexivity.
  - unfold jointIds, resetSimulation. rewrite map_map. reflexivity.
Qed.

(** C3, amended: at each pivot a larger published torque never gives a
    larger safety factor, and a larger payload (of non-negative mass) never
    gives a larger safety factor at a pivot where the moment of the link
    masses about that pivot and the moment of a unit payload have a positive
    inner product and the torque published for the lighter payload exceeds
    the placeholder 0.1.  Where the two moments oppose each other they
    partly cancel; where the moment is zero or so small that rounding
    residues decide the zero test of the fill, the placeholder may be
    published for one payload and not for the other; nothing is claimed for
    either case. *)
Theorem safety_factor_antitone
    (j0 j1 j2 j3 j4 j5 j6 j7 j8 : JointState.t) (rest : list JointState.t)
    (trajectory : list Vector3.t) (mass1 mass2 : R) :
  let joints := j0 :: j1 :: j2 :: j3 :: j4 :: j5 :: j6 :: j7 :: j8 :: rest in
  let F := forwardKinematics
             (JointState.angle j0) (JointState.angle j1) (JointState.angle j2)
             (JointState.angle j3) (JointState.angle j4) (JointState.angle j5)
             (JointState.angle j6) (JointState.angle j7) (JointState.angle j8) in
  let aligned pivot k :=
    0 < dot (linkMoment F pivot k) (unitPayloadMoment F pivot) in
  let published m key := readTorque (torqueMap joints F m) key in
  jointIds joints = jointIds initialJoints ->
  0 <= mass1 -> mass1 <= mass2 ->
  exists ev1 ev2 s1 e1 w1 s2 e2 w2,
    renderEffect joints mass1 trajectory = Some ev1
    /\ renderEffect joints mass2 trajectory = Some ev2
    /\ ev_stressResults ev1 = [s1; e1; w1]
    /\ ev_stressResults ev2 = [s2; e2; w2]
    /\ map StressResult.location [s1; e1; w1] = ["Shoulder"; "Elbow"; "Wrist"]
    /\ map StressResult.location [s2; e2; w2] = ["Shoulder"; "Elbow"; "Wrist"]
    /\ map StressResult.torqueStatic [s1; e1; w1]
       = map (published mass1) ["j2"; "j5"; "j7_y"]
    /\ map StressResult.torqueStatic [s2; e2; w2]
       = map (published mass2) ["j2"; "j5"; "j7_y"]
    /\ (StressResult.torqueStatic s1 <= StressResult.torqueStatic s2 ->
        StressResult.safetyFactor s2 <= StressResult.safetyFactor s1)
    /\ (StressResult.torqueStatic e1 <= StressResult.torqueStatic e2 ->
        StressResult.safetyFactor e2 <= StressResult.safetyFactor e1)
    /\ (StressResult.torqueStatic w1 <= StressResult.torqueStatic w2 ->
        StressResult.safetyFactor w2 <= StressResult.safetyFactor w1)
    /\ (aligned (FrameData.pos (frameJ2 F)) 0%nat ->
        0.1 < published mass1 "j2" ->
        StressResult.safetyFactor s2 <= StressResult.safetyFactor s1)
    /\ (aligned (FrameData.pos (frameJ5 F)) 1%nat ->
        0.1 < published mass1 "j5" ->
        StressResult.safetyFactor e2 <= StressResult.safetyFactor e1)
    /\ (aligned (FrameData.pos (frameJ7Y F)) 2%nat ->
        0.1 < published mass1 "j7_y" ->
        StressResult.safetyFactor w2 <= StressResult.safetyFactor w1).
Proof.
  intros joints F aligned published Hids Hm1 Hm12.
  assert (forall m, renderEffect joints m trajectory
                    = Some (mkEvaluation (allFrames F) (endEffector F) (reach F)
                              (torqueMap joints F m)
                              (stressResults (torqueMap joints F m))
                              (updateTrajectory trajectory (endEffector F))))
    as Hrender by reflexivity.
  destruct (pivot_torques_positive joints F mass1 Hids) as (P2 & P5 & P7).
  destruct (pivots_among_ids joints Hids) as (H2 & H5 & H7).
  do 8 eexists.
  split; [apply Hrender|]. split; [apply Hrender|].
  cbn [ev_stressResults].
  split; [reflexivity|]. split; [reflexivity|].
  split; [reflexivity|]. split; [reflexivity|].
  split; [reflexivity|]. split; [reflexivity|].
  cbn [StressResult.safetyFactor StressResult.torqueStatic]. unfold published.
  split; [|split; [|split; [|split; [|split]]]].
  - intros Hle.
    apply safetyFactor_antitone; [apply armLink_UPPER | assumption..].
  - intros Hle.
    apply safetyFactor_antitone; [apply armLink_FOREARM | assumption..].
  - intros Hle.
    apply safetyFactor_antitone; [apply armLink_HAND | assumption..].
  - intros Hal _.
    destruct (moment_grows_when_aligned F _ 0 mass1 mass2 ltac:(lia) Hal Hm1 Hm12)
      as [Hpos Hle].
    rewrite drop_0 in Hpos. repeat rewrite drop_0 in Hle.
    rewrite !torqueMap_j2 by exact H2. unfold momentJ2.
    rewrite !afterFill_nonzero by lra.
    apply safetyFactor_antitone; [apply armLink_UPPER | assumption..].
  - intros Hal _.
    destruct (moment_grows_when_aligned F _ 1 mass1 mass2 ltac:(lia) Hal Hm1 Hm12)
      as [Hpos Hle].
    rewrite !torqueMap_j5 by exact H5. unfold momentJ5.
    rewrite !afterFill_nonzero by lra.
    apply safetyFactor_antitone; [apply armLink_FOREARM | assumption..].
  - intros Hal _.
    destruct (moment_grows_when_aligned F _ 2 mass1 mass2 ltac:(lia) Hal Hm1 Hm12)
      as [Hpos Hle].
    rewrite !torqueMap_j7_y by exact H7. unfold momentJ7Y.
    rewrite !afterFill_nonzero by lra.
    apply safetyFactor_antitone; [apply armLink_HAND | assumption..].
Qed.

(** In the initial state the moments of links and payload point the same
    way at the shoulder and at the wrist: from 5 kg to 10 kg neither the
    Shoulder nor the Wrist safety factor grows. *)
Lemma safety_factor_antitone_witness :
  jointIds initialJoints = jointIds initialJoints
  /\ 0 <= 5 /\ 5 <= 10
  /\ exists ev1 ev2 s1 s2 w1 w2,
       renderEffect initialJoints 5 [] = Some ev1
       /\ renderEffect initialJoints 10 [] = Some ev2
       /\ ev_stressResults ev1 !! 0%nat = Some s1
       /\ ev_stressResults ev2 !! 0%nat = Some s2
       /\ ev_stressResults ev1 !! 2%nat = Some w1
       /\ ev_stressResults ev2 !! 2%nat = Some w2
       /\ StressResult.safetyFactor s2 <= StressResult.safetyFactor s1
       /\ StressResult.safetyFactor w2 <= StressResult.safetyFactor w1.
Proof.
  split; [reflexivity|]. split; [lra|]. split; [lra|].
  destruct (safety_factor_antitone
              (JointState.mk "j1" "Shoulder Z (Yaw)" 0 0 0 (-90) 90 axis_z Shoulder)
              (JointState.mk "j2" "Shoulder Y (Pitch)" 0 0 0 (-90) 90 axis_y Shoulder)
              (JointState.mk "j3" "Shoulder X (Roll)" 0 0 0 (-45) 45 axis_x Shoulder)
              (JointState.mk "j4" "Elbow Z (Yaw)" (-180) (-180) 0 (-270) (-90) axis_z Elbow)
              (JointState.mk "j5" "Elbow Y (Pitch)" (-180) (-180) 0 (-270) (-90) axis_y Elbow)
              (JointState.mk "j6" "Elbow X (Roll)" 0 0 0 (-45) 45 axis_x Elbow)
              (JointState.mk "j7_x" "Wrist X (Roll)" 0 0 0 (-45) 45 axis_x Wrist)
              (JointState.mk "j7_y" "Wrist Y (Pitch)" 0 0 0 (-45) 45 axis_y Wrist)
              (JointState.mk "j7_z" "Wrist Z (Yaw)" 0 0 0 (-45) 45 axis_z Wrist)
              [JointState.mk "j9" "Gripper" 50 50 0 0 100 axis_x Gripper]
              [] 5 10)
    as (ev1 & ev2 & s1 & e1 & w1 & s2 & e2 & w2
        & H1 & H2 & R1 & R2 & _ & _ & _ & _ & _ & _ & _ & Hs & _ & Hw);
    [reflexivity | lra | lra |].
  exists ev1, ev2, s1, s2, w1, w2.
  rewrite R1, R2.
  split; [exact H1|]. split; [exact H2|].
  split; [reflexivity|]. split; [reflexivity|].
  split; [reflexivity|]. split; [reflexivity|].
  destruct (initial_pose_torques 5 ltac:(lra)) as (T2 & _ & T7).
  cbv zeta in T2, T7.
  split.
  - apply Hs.
    + cbn [JointState.angle]. rewrite initial_pose_frames.
      unfold dot, linkMoment, unitPayloadMoment, totalMoment, linkLoads,
        cogUpper, cogFore, cogHand, endEffector, lerpVector, crossProduct, vsub,
        extractFrame, get, identity, GRAVITY.
      cbn [drop fold_left nth
           frameJ2 frameJ3 frameJ4 frameJ5 frameJ6 frameJ7X frameJ7Y frameJ7Z
           endEffectorFrame FrameData.pos Vector3.x Vector3.y Vector3.z
           Load.mass Load.pos LinkProps.mass LinkProps.cogRatio
           LINKS.UPPER LINKS.FOREARM LINKS.HAND].
      lra.
    + change (0.1 < readTorque
                      (torqueMap initialJoints
                         (forwardKinematics 0 0 0 (-180) (-180) 0 0 0 0) 5) "j2").
      rewrite T2. unfold GRAVITY. lra.
  - apply Hw.
    + cbn [JointState.angle]. rewrite initial_pose_frames.
      unfold dot, linkMoment, unitPayloadMoment, totalMoment, linkLoads,
        cogUpper, cogFore, cogHand, endEffector, lerpVector, crossProduct, vsub,
        extractFrame, get, identity, GRAVITY.
      cbn [drop fold_left nth
           frameJ2 frameJ3 frameJ4 frameJ5 frameJ6 frameJ7X frameJ7Y frameJ7Z
           endEffectorFrame FrameData.pos Vector3.x Vector3.y Vector3.z
           Load.mass Load.pos LinkProps.mass LinkProps.cogRatio
           LINKS.UPPER LINKS.FOREARM LINKS.HAND].
      lra.
    + change (0.1 < readTorque
                      (torqueMap initialJoints
                         (forwardKinematics 0 0 0 (-180) (-180) 0 0 0 0) 5) "j7_y").
      rewrite T7. unfold GRAVITY. lra.
Defined.

(** ** The safety factor at a pivot without load *)

Lemma toRad_m225 : toRad (-225) = - (PI + PI / 4).
Proof. unfold toRad. field. Qed.

Lemma cos_toRad_m225 : cos (toRad (-225)) = - h45.
Proof.
  rewrite toRad_m225, cos_neg, Rplus_comm, neg_cos.
  rewrite <- toRad_45, cos_toRad_45. reflexivity.
Qed.

Lemma sin_toRad_m225 : sin (toRad (-225)) = h45.
Proof.
  rewrite toRad_m225, sin_neg, Rplus_comm, neg_sin.
  rewrite <- toRad_45, sin_toRad_45. ring.
Qed.

#[global] Hint Rewrite cos_toRad_m225 sin_toRad_m225 : trig.

Lemma hangingJoints_in_range :
  Forall (fun j => JointState.min j <= JointState.angle j <= JointState.max j)
         hangingJoints.
Proof. repeat constructor; cbn; lra. Qed.








(** On the reals: every published stress is positive and every published
    safety factor is the quotient of 276 by it, a positive real, because a
    pivot moment of zero has been replaced by the placeholder torque. *)
Lemma published_stress_positive joints F loadMass :
  jointIds joints = jointIds initialJoints ->
  Forall (fun r =>
            0 < StressResult.stressMPa r
            /\ StressResult.safetyFactor r
               = AL6061_YIELD_STRENGTH / StressResult.stressMPa r
            /\ 0 < StressResult.safetyFactor r)
         (stressResults (torqueMap joints F loadMass)).
Proof.
  intros Hids.
  destruct (pivot_torques_positive joints F loadMass Hids) as (P2 & P5 & P7).
  pose proof (calcStress_pos _ _ armLink_UPPER P2).
  pose proof (calcStress_pos _ _ armLink_FOREARM P5).
  pose proof (calcStress_pos _ _ armLink_HAND P7).
  unfold stressResults. cbv zeta.
  repeat constructor;
    cbn [StressResult.stressMPa StressResult.safetyFactor]; try assumption;
    apply Rdiv_lt_0_compat; (unfold AL6061_YIELD_STRENGTH; lra) || assumption.
Qed.

(** * Further properties of the component *)

(** ** Frames are orthonormal *)

Lemma sin_cos_sqr theta : cos theta * cos theta + sin theta * sin theta = 1.
Proof. pose proof (sin2_cos2 theta) as H. unfold Rsqr in H. lra. Qed.

Lemma dot_comm u v : dot u v = dot v u.
Proof. unfold dot. ring. Qed.

(** Turning two axes of an orthonormal triple within their plane. *)
Lemma orthonormal_turn u v w c s :
  c * c + s * s = 1 -> orthonormal u v w ->
  orthonormal (vadd (vscale c u) (vscale s v))
              (vadd (vscale (- s) u) (vscale c v)) w.
Proof.
  intros Hcs (Huu & Hvv & Hww & Huv & Huw & Hvw).
  destruct u as [u1 u2 u3], v as [v1 v2 v3], w as [w1 w2 w3].
  unfold orthonormal, dot, vadd, vscale in *.
  cbn [Vector3.x Vector3.y Vector3.z] in *.
  set (uu := u1 * u1 + u2 * u2 + u3 * u3) in *.
  set (vv := v1 * v1 + v2 * v2 + v3 * v3) in *.
  set (uv := u1 * v1 + u2 * v2 + u3 * v3) in *.
  set (uw := u1 * w1 + u2 * w2 + u3 * w3) in *.
  set (vw := v1 * w1 + v2 * w2 + v3 * w3) in *.
  repeat split.
  - replace (_ + _ + _) with (c * c * uu + s * s * vv + 2 * c * s * uv)
      by (unfold uu, vv, uv; ring).
    rewrite Huu, Hvv, Huv. lra.
  - replace (_ + _ + _) with (s * s * uu + c * c * vv - 2 * c * s * uv)
      by (unfold uu, vv, uv; ring).
    rewrite Huu, Hvv, Huv. lra.
  - exact Hww.
  - replace (_ + _ + _) with (c * s * (vv - uu) + (c * c - s * s) * uv)
      by (unfold uu, vv, uv; ring).
    rewrite Huu, Hvv, Huv. lra.
  - replace (_ + _ + _) with (c * uw + s * vw) by (unfold uw, vw; ring).
    rewrite Huw, Hvw. lra.
  - replace (_ + _ + _) with (- s * uw + c * vw) by (unfold uw, vw; ring).
    rewrite Huw, Hvw. lra.
Qed.

Lemma orthonormal_rotate u v w : orthonormal u v w -> orthonormal v w u.
Proof.
  intros (Huu & Hvv & Hww & Huv & Huw & Hvw).
  repeat split; try assumption; rewrite dot_comm; assumption.
Qed.

Lemma columns_rotateX m theta :
  column (multiplyMatrices m (rotateX theta)) 0 = column m 0
  /\ column (multiplyMatrices m (rotateX theta)) 1
     = vadd (vscale (cos theta) (column m 1)) (vscale (sin theta) (column m 2))
  /\ column (multiplyMatrices m (rotateX theta)) 2
     = vadd (vscale (- sin theta) (column m 1)) (vscale (cos theta) (column m 2)).
Proof. repeat split; vector_eq; ring. Qed.

Lemma columns_rotateY m theta :
  column (multiplyMatrices m (rotateY theta)) 0
  = vadd (vscale (- sin theta) (column m 2)) (vscale (cos theta) (column m 0))
  /\ column (multiplyMatrices m (rotateY theta)) 1 = column m 1
  /\ column (multiplyMatrices m (rotateY theta)) 2
     = vadd (vscale (cos theta) (column m 2)) (vscale (sin theta) (column m 0)).
Proof. repeat split; vector_eq; ring. Qed.

Lemma columns_rotateZ m theta :
  column (multiplyMatrices m (rotateZ theta)) 0
  = vadd (vscale (cos theta) (column m 0)) (vscale (sin theta) (column m 1))
  /\ column (multiplyMatrices m (rotateZ theta)) 1
     = vadd (vscale (- sin theta) (column m 0)) (vscale (cos theta) (column m 1))
  /\ column (multiplyMatrices m (rotateZ theta)) 2 = column m 2.
Proof. repeat split; vector_eq; ring. Qed.

Lemma columns_translate m l :
  column (multiplyMatrices m (translate l 0 0)) 0 = column m 0
  /\ column (multiplyMatrices m (translate l 0 0)) 1 = column m 1
  /\ column (multiplyMatrices m (translate l 0 0)) 2 = column m 2.
Proof. repeat split; vector_eq; ring. Qed.

Lemma rigid_identity : rigid identity.
Proof.
  unfold rigid, orthonormal, dot, column, identity, get. cbn [nth Vector3.x Vector3.y Vector3.z].
  repeat split; lra.
Qed.

(** Each step of the chain keeps the axes orthonormal. *)
Lemma rigid_step m B : rigid m -> chainStep B -> rigid (multiplyMatrices m B).
Proof.
  unfold rigid. intros Hm [theta|theta|theta|l].
  - destruct (columns_rotateX m theta) as (-> & -> & ->).
    do 2 apply orthonormal_rotate.
    apply orthonormal_turn; [apply sin_cos_sqr|].
    apply orthonormal_rotate, Hm.
  - destruct (columns_rotateY m theta) as (-> & -> & ->).
    apply orthonormal_rotate.
    apply orthonormal_turn; [apply sin_cos_sqr|].
    do 2 apply orthonormal_rotate. exact Hm.
  - destruct (columns_rotateZ m theta) as (-> & -> & ->).
    apply orthonormal_turn; [apply sin_cos_sqr | exact Hm].
  - destruct (columns_translate m l) as (-> & -> & ->). exact Hm.
Qed.

Lemma rigid_fold steps acc :
  Forall chainStep steps -> rigid acc -> rigid (fold_left multiplyMatrices steps acc).
Proof.
  intros Hsteps. revert acc.
  induction Hsteps as [|B steps HB _ IH]; intros acc Hacc; [exact Hacc|].
  cbn [fold_left]. apply IH, rigid_step; assumption.
Qed.

Lemma chainSteps_are_steps a0 a1 a2 a3 a4 a5 a6 a7 a8 :
  Forall chainStep (chainSteps a0 a1 a2 a3 a4 a5 a6 a7 a8).
Proof. repeat constructor. Qed.

Lemma rigid_accumulated a0 a1 a2 a3 a4 a5 a6 a7 a8 n :
  rigid (accumulated (chainSteps a0 a1 a2 a3 a4 a5 a6 a7 a8) n).
Proof.
  apply rigid_fold; [|apply rigid_identity].
  apply Forall_take, chainSteps_are_steps.
Qed.

Lemma forwardKinematics_orthonormal a0 a1 a2 a3 a4 a5 a6 a7 a8 :
  Forall orthonormalFrame (allFrames (forwardKinematics a0 a1 a2 a3 a4 a5 a6 a7 a8)).
Proof.
  rewrite forwardKinematics_accumulated. unfold allFrames.
  cbn [frames0 frameJ1 frameJ2 frameJ3 frameJ4 frameJ5 frameJ6 frameJ7X
       frameJ7Y frameJ7Z endEffectorFrame].
  repeat constructor; apply (rigid_accumulated a0 a1 a2 a3 a4 a5 a6 a7 a8).
Qed.

(** X1: every frame the render effect stores has three unit axes that are
    orthogonal to each other, whatever the joint angles. *)
Theorem frames_are_orthonormal
    (j0 j1 j2 j3 j4 j5 j6 j7 j8 : JointState.t) (rest : list JointState.t)
    (loadMass : R) (trajectory : list Vector3.t) :
  exists ev,
    renderEffect (j0 :: j1 :: j2 :: j3 :: j4 :: j5 :: j6 :: j7 :: j8 :: rest)
      loadMass trajectory = Some ev
    /\ Forall orthonormalFrame (ev_frames ev).
Proof.
  eexists; split; [reflexivity|]. cbn [ev_frames].
  apply forwardKinematics_orthonormal.
Qed.

(** ** Link lengths and reach *)

Section Links.
Variables a0 a1 a2 a3 a4 a5 a6 a7 a8 : R.

Let F := forwardKinematics a0 a1 a2 a3 a4 a5 a6 a7 a8.

Lemma xAxis_unit :
  dot (FrameData.xAxis (frameJ3 F)) (FrameData.xAxis (frameJ3 F)) = 1
  /\ dot (FrameData.xAxis (frameJ6 F)) (FrameData.xAxis (frameJ6 F)) = 1
  /\ dot (FrameData.xAxis (frameJ7Z F)) (FrameData.xAxis (frameJ7Z F)) = 1.
Proof.
  pose proof (forwardKinematics_orthonormal a0 a1 a2 a3 a4 a5 a6 a7 a8) as H.
  fold F in H. unfold allFrames in H.
  repeat (apply Forall_cons in H as [? H]).
  repeat split;
    match goal with
    | Hf : orthonormalFrame (?f F) |- dot (FrameData.xAxis (?f F)) _ = 1 =>
        exact (proj1 Hf)
    end.
Qed.

(** The positions the loads and the drawing use, from the three link
    directions u, f, d (the x axes of frames J3, J6 and J7_Z). *)
Lemma arm_positions :
  let u := FrameData.xAxis (frameJ3 F) in
  let f := FrameData.xAxis (frameJ6 F) in
  let d := FrameData.xAxis (frameJ7Z F) in
  let E := vscale 0.45 u in
  let W := vadd E (vscale 0.30 f) in
  FrameData.pos (frameJ2 F) = Vector3.mk 0 0 0
  /\ FrameData.pos (frameJ3 F) = Vector3.mk 0 0 0
  /\ FrameData.pos (frameJ4 F) = E
  /\ FrameData.pos (frameJ5 F) = E
  /\ FrameData.pos (frameJ6 F) = E
  /\ FrameData.pos (frameJ7X F) = W
  /\ FrameData.pos (frameJ7Y F) = W
  /\ FrameData.pos (frameJ7Z F) = W
  /\ endEffector F = vadd W (vscale 0.15 d).
Proof.
  intros u f d E W.
  destruct (shoulder_positions a0 a1 a2 a3 a4 a5 a6 a7 a8) as (_ & S2 & S3).
  destruct (elbow_positions a0 a1 a2 a3 a4 a5 a6 a7 a8) as (E4 & E5 & E6).
  destruct (wrist_positions a0 a1 a2 a3 a4 a5 a6 a7 a8) as (W7 & W8 & W9).
  pose proof (endEffector_position a0 a1 a2 a3 a4 a5 a6 a7 a8) as HE.
  fold F in S2, S3, E4, E5, E6, W7, W8, W9, HE.
  cbv zeta in E4, E5, E6, W7, W8, W9.
  rewrite E6 in W7, W8, W9. rewrite W9 in HE.
  repeat split; assumption.
Qed.

End Links.

Lemma magnitude_vscale_unit k v : 0 <= k -> dot v v = 1 -> magnitude (vscale k v) = k.
Proof.
  intros Hk Hv. rewrite magnitude_vscale by exact Hk.
  unfold magnitude. unfold dot in Hv. rewrite Hv, sqrt_1. lra.
Qed.

(** X2: the three link segments the canvas draws keep their lengths in
    every pose: 0.45 m from J3 to J4, 0.30 m from J6 to J7_X and 0.15 m
    from J7_Z to the end effector. *)
Theorem link_segments_keep_length (a0 a1 a2 a3 a4 a5 a6 a7 a8 : R) :
  let F := forwardKinematics a0 a1 a2 a3 a4 a5 a6 a7 a8 in
  magnitude (vsub (FrameData.pos (frameJ4 F)) (FrameData.pos (frameJ3 F))) = 0.45
  /\ magnitude (vsub (FrameData.pos (frameJ7X F)) (FrameData.pos (frameJ6 F))) = 0.30
  /\ magnitude (vsub (endEffector F) (FrameData.pos (frameJ7Z F))) = 0.15.
Proof.
  intros F.
  destruct (arm_positions a0 a1 a2 a3 a4 a5 a6 a7 a8)
    as (_ & P3 & P4 & _ & P6 & P7 & _ & P9 & PE).
  destruct (xAxis_unit a0 a1 a2 a3 a4 a5 a6 a7 a8) as (Uu & Uf & Ud).
  fold F in P3, P4, P6, P7, P9, PE, Uu, Uf, Ud.
  rewrite P3, P4, P6, P7, P9, PE.
  set (u := FrameData.xAxis (frameJ3 F)) in *.
  set (f := FrameData.xAxis (frameJ6 F)) in *.
  set (d := FrameData.xAxis (frameJ7Z F)) in *.
  repeat split.
  - rewrite <- (magnitude_vscale_unit 0.45 u) at 2 by (lra || assumption).
    f_equal. vector_eq; ring.
  - rewrite <- (magnitude_vscale_unit 0.30 f) at 2 by (lra || assumption).
    f_equal. vector_eq; ring.
  - rewrite <- (magnitude_vscale_unit 0.15 d) at 2 by (lra || assumption).
    f_equal. vector_eq; ring.
Qed.

(** The end effector in terms of the three link directions. *)
Lemma dot_le_1 u v : dot u u = 1 -> dot v v = 1 -> dot u v <= 1.
Proof.
  destruct u as [u1 u2 u3], v as [v1 v2 v3]. unfold dot.
  cbn [Vector3.x Vector3.y Vector3.z]. intros Hu Hv.
  pose proof (Rle_0_sqr (u1 - v1)). pose proof (Rle_0_sqr (u2 - v2)).
  pose proof (Rle_0_sqr (u3 - v3)). unfold Rsqr in *. nra.
Qed.

(** The length of a mix of three unit vectors with non-negative weights is
    at most the sum of the weights. *)
Lemma mix_norm_bound u f d a b c :
  dot u u = 1 -> dot f f = 1 -> dot d d = 1 ->
  0 <= a -> 0 <= b -> 0 <= c ->
  let v := vadd (vadd (vscale a u) (vscale b f)) (vscale c d) in
  dot v v <= (a + b + c) * (a + b + c).
Proof.
  intros Hu Hf Hd Ha Hb Hc v.
  pose proof (dot_le_1 u f Hu Hf) as Huf.
  pose proof (dot_le_1 u d Hu Hd) as Hud.
  pose proof (dot_le_1 f d Hf Hd) as Hfd.
  assert (dot v v = a * a * dot u u + b * b * dot f f + c * c * dot d d
                    + 2 * (a * b) * dot u f + 2 * (a * c) * dot u d
                    + 2 * (b * c) * dot f d) as ->.
  { unfold v, dot, vadd, vscale. cbn [Vector3.x Vector3.y Vector3.z]. ring. }
  rewrite Hu, Hf, Hd.
  assert (0 <= a * b) by (apply Rmult_le_pos; assumption).
  assert (0 <= a * c) by (apply Rmult_le_pos; assumption).
  assert (0 <= b * c) by (apply Rmult_le_pos; assumption).
  nra.
Qed.

Lemma magnitude_le_of_dot v t : 0 <= t -> dot v v <= t * t -> magnitude v <= t.
Proof.
  intros Ht H. unfold magnitude. unfold dot in H.
  rewrite <- (sqrt_square t) by exact Ht.
  apply sqrt_le_1_alt. exact H.
Qed.

(** X3: in every pose the reported reach is at most 0.9 m, the sum of the
    three link lengths. *)
Theorem reach_at_most_arm_length
    (j0 j1 j2 j3 j4 j5 j6 j7 j8 : JointState.t) (rest : list JointState.t)
    (loadMass : R) (trajectory : list Vector3.t) :
  exists ev,
    renderEffect (j0 :: j1 :: j2 :: j3 :: j4 :: j5 :: j6 :: j7 :: j8 :: rest)
      loadMass trajectory = Some ev
    /\ 0 <= ev_reach ev <= 0.9.
Proof.
  eexists; split; [reflexivity|]. cbn [ev_reach].
  set (F := forwardKinematics _ _ _ _ _ _ _ _ _).
  split; [apply magnitude_nonneg|].
  destruct (arm_positions (JointState.angle j0) (JointState.angle j1)
              (JointState.angle j2) (JointState.angle j3) (JointState.angle j4)
              (JointState.angle j5) (JointState.angle j6) (JointState.angle j7)
              (JointState.angle j8)) as (_ & _ & _ & _ & _ & _ & _ & _ & PE).
  destruct (xAxis_unit (JointState.angle j0) (JointState.angle j1)
              (JointState.angle j2) (JointState.angle j3) (JointState.angle j4)
              (JointState.angle j5) (JointState.angle j6) (JointState.angle j7)
              (JointState.angle j8)) as (Uu & Uf & Ud).
  fold F in PE, Uu, Uf, Ud.
  unfold reach. rewrite PE.
  set (u := FrameData.xAxis (frameJ3 F)) in *.
  set (f := FrameData.xAxis (frameJ6 F)) in *.
  set (d := FrameData.xAxis (frameJ7Z F)) in *.
  replace (FrameData.pos (frames0 F)) with (Vector3.mk 0 0 0) by reflexivity.
  apply magnitude_le_of_dot; [lra|].
  pose proof (mix_norm_bound u f d 0.45 0.30 0.15 Uu Uf Ud
                ltac:(lra) ltac:(lra) ltac:(lra)) as H.
  cbv zeta in H.
  replace (0.9 * 0.9) with ((0.45 + 0.30 + 0.15) * (0.45 + 0.30 + 0.15)) by lra.
  etransitivity; [|exact H]. apply Req_le.
  unfold dot, vadd, vscale. cbn [Vector3.x Vector3.y Vector3.z]. ring.
Qed.

(** X4: the elbow position depends on shoulder yaw and pitch only: it is
    0.45 (cos yaw cos pitch, sin yaw cos pitch, - sin pitch), and the three
    elbow frames share it; shoulder roll and every joint after it leave the
    elbow where it is. *)
Theorem elbow_position_closed_form (a0 a1 a2 a3 a4 a5 a6 a7 a8 : R) :
  let F := forwardKinematics a0 a1 a2 a3 a4 a5 a6 a7 a8 in
  let E := Vector3.mk (0.45 * (cos (toRad a0) * cos (toRad a1)))
                      (0.45 * (sin (toRad a0) * cos (toRad a1)))
                      (0.45 * (- sin (toRad a1))) in
  FrameData.pos (frameJ4 F) = E
  /\ FrameData.pos (frameJ5 F) = E
  /\ FrameData.pos (frameJ6 F) = E.
Proof.
  intros F E.
  destruct (arm_positions a0 a1 a2 a3 a4 a5 a6 a7 a8)
    as (_ & _ & P4 & P5 & P6 & _).
  fold F in P4, P5, P6. rewrite P4, P5, P6.
  assert (vscale 0.45 (FrameData.xAxis (frameJ3 F)) = E) as ->; [|auto].
  unfold F, forwardKinematics; cbv zeta; cbn [frameJ3].
  rewrite xAxis_extractFrame.
  destruct (columns_rotateX
              (multiplyMatrices (multiplyMatrices identity (rotateZ (toRad a0)))
                 (rotateY (toRad a1))) (toRad a2)) as (-> & _).
  destruct (columns_rotateY (multiplyMatrices identity (rotateZ (toRad a0)))
              (toRad a1)) as (-> & _).
  destruct (columns_rotateZ identity (toRad a0)) as (-> & _ & ->).
  unfold E. apply Vector3_eq;
    cbn [vadd vscale column Vector3.x Vector3.y Vector3.z];
    unfold identity, get; cbn [nth]; decimals; ring.
Qed.

(** ** Moments in every pose *)

Lemma totalMoment_fold pivot loads acc :
  fold_left
    (fun totalM L =>
       let r := Vector3.mk (Vector3.x (Load.pos L) - Vector3.x pivot)
                           (Vector3.y (Load.pos L) - Vector3.y pivot)
                           (Vector3.z (Load.pos L) - Vector3.z pivot) in
       let F := Vector3.mk 0 0 (- Load.mass L * GRAVITY) in
       let M := crossProduct r F in
       Vector3.mk (Vector3.x totalM + Vector3.x M)
                  (Vector3.y totalM + Vector3.y M)
                  (Vector3.z totalM + Vector3.z M))
    loads acc
  = vadd acc (Vector3.mk (- GRAVITY * Vector3.y (firstMoment pivot loads))
                         (GRAVITY * Vector3.x (firstMoment pivot loads)) 0).
Proof.
  revert acc. induction loads as [|L loads IH]; intros acc.
  - cbn [fold_left firstMoment fold_right]. vector_eq; ring.
  - cbn [fold_left firstMoment fold_right]. rewrite IH.
    fold (firstMoment pivot loads).
    unfold crossProduct, vadd, vscale, vsub.
    apply Vector3_eq; cbn [Vector3.x Vector3.y Vector3.z]; ring.
Qed.

(** The net moment is horizontal: gravity times the mass-weighted lever
    arm, turned by a quarter turn about the vertical. *)
Lemma totalMoment_firstMoment pivot loads :
  totalMoment pivot loads
  = Vector3.mk (- GRAVITY * Vector3.y (firstMoment pivot loads))
               (GRAVITY * Vector3.x (firstMoment pivot loads)) 0.
Proof.
  unfold totalMoment. rewrite totalMoment_fold. vector_eq; ring.
Qed.

Lemma calculateMoment_firstMoment pivot loads :
  let S := firstMoment pivot loads in
  calculateMoment pivot loads
  = GRAVITY * sqrt (Vector3.x S * Vector3.x S + Vector3.y S * Vector3.y S).
Proof.
  intros S. unfold calculateMoment. rewrite totalMoment_firstMoment. fold S.
  apply magnitude_eq.
  - apply Rmult_le_pos; [unfold GRAVITY; lra | apply sqrt_pos].
  - set (q := Vector3.x S * Vector3.x S + Vector3.y S * Vector3.y S).
    assert (0 <= q) by (unfold q; nra).
    replace (GRAVITY * sqrt q * (GRAVITY * sqrt q))
      with (GRAVITY * GRAVITY * (sqrt q * sqrt q)) by ring.
    rewrite sqrt_sqrt by assumption. unfold q. ring.
Qed.

Lemma calculateMoment_le pivot loads t :
  0 <= t ->
  dot (firstMoment pivot loads) (firstMoment pivot loads) <= t * t ->
  calculateMoment pivot loads <= GRAVITY * t.
Proof.
  intros Ht H. rewrite calculateMoment_firstMoment. cbv zeta.
  apply Rmult_le_compat_l; [unfold GRAVITY; lra|].
  rewrite <- (sqrt_square t) by exact Ht.
  apply sqrt_le_1_alt. unfold dot in H.
  pose proof (Rle_0_sqr (Vector3.z (firstMoment pivot loads))) as Hz.
  unfold Rsqr in Hz. lra.
Qed.

(** X5: the moment about a pivot depends on the horizontal lever arms only:
    two sets of loads with the same masses and the same x and y coordinates
    give the same moment about pivots with the same x and y, whatever the
    heights. *)
Theorem moment_ignores_heights (pivot pivot' : Vector3.t)
    (loads loads' : list Load.t) :
  Vector3.x pivot = Vector3.x pivot' ->
  Vector3.y pivot = Vector3.y pivot' ->
  Forall2 (fun L L' =>
             Load.mass L = Load.mass L'
             /\ Vector3.x (Load.pos L) = Vector3.x (Load.pos L')
             /\ Vector3.y (Load.pos L) = Vector3.y (Load.pos L'))
          loads loads' ->
  calculateMoment pivot loads = calculateMoment pivot' loads'.
Proof.
  intros Hx Hy Hall. rewrite !calculateMoment_firstMoment. cbv zeta.
  assert (Vector3.x (firstMoment pivot loads) = Vector3.x (firstMoment pivot' loads')
          /\ Vector3.y (firstMoment pivot loads)
             = Vector3.y (firstMoment pivot' loads')) as [-> ->]; [|reflexivity].
  induction Hall as [|L L' loads loads' (Hm & Hpx & Hpy) _ [IHx IHy]].
  - split; reflexivity.
  - cbn [firstMoment fold_right].
    fold (firstMoment pivot loads). fold (firstMoment pivot' loads').
    unfold vadd, vscale, vsub. cbn [Vector3.x Vector3.y Vector3.z].
    rewrite IHx, IHy, Hm, Hpx, Hpy, Hx, Hy. split; reflexivity.
Qed.

Lemma moment_ignores_heights_witness :
  calculateMoment (Vector3.mk 0 0 0)
    [Load.mk 1.5 (Vector3.mk 0.2 0.1 0); Load.mk 5 (Vector3.mk 0.4 0 0.3)]
  = calculateMoment (Vector3.mk 0 0 1)
      [Load.mk 1.5 (Vector3.mk 0.2 0.1 0.7); Load.mk 5 (Vector3.mk 0.4 0 (-2))].
Proof.
  apply moment_ignores_heights; [reflexivity | reflexivity |].
  repeat constructor.
Defined.

Section MomentBounds.
Variables a0 a1 a2 a3 a4 a5 a6 a7 a8 : R.

Let F := forwardKinematics a0 a1 a2 a3 a4 a5 a6 a7 a8.
Let u := FrameData.xAxis (frameJ3 F).
Let f := FrameData.xAxis (frameJ6 F).
Let d := FrameData.xAxis (frameJ7Z F).

(** The mass-weighted lever arms about the three pivots, in terms of the
    link directions. *)
Lemma firstMoment_pivots (loadMass : R) :
  firstMoment (FrameData.pos (frameJ2 F)) (loadSet F loadMass)
  = vadd (vadd (vscale (1.4625 + 0.45 * loadMass) u)
               (vscale (0.525 + 0.3 * loadMass) f))
         (vscale (0.075 + 0.15 * loadMass) d)
  /\ firstMoment (FrameData.pos (frameJ5 F)) (drop 1 (loadSet F loadMass))
     = vadd (vadd (vscale 0 u) (vscale (0.525 + 0.3 * loadMass) f))
            (vscale (0.075 + 0.15 * loadMass) d)
  /\ firstMoment (FrameData.pos (frameJ7Y F)) (drop 2 (loadSet F loadMass))
     = vadd (vadd (vscale 0 u) (vscale 0 f))
            (vscale (0.075 + 0.15 * loadMass) d).
Proof.
  destruct (arm_positions a0 a1 a2 a3 a4 a5 a6 a7 a8)
    as (P2 & P3 & P4 & P5 & P6 & P7 & P8 & P9 & PE).
  fold F in P2, P3, P4, P5, P6, P7, P8, P9, PE. fold u f d in P4, P5, P6, P7, P8, P9, PE.
  unfold loadSet, cogUpper, cogFore, cogHand.
  rewrite P2, P3, P4, P5, P6, P7, P8, P9, PE.
  clearbody u f d. destruct u as [u1 u2 u3], f as [f1 f2 f3], d as [d1 d2 d3].
  unfold firstMoment, lerpVector, vadd, vscale, vsub.
  cbn [drop fold_right Load.mass Load.pos Vector3.x Vector3.y Vector3.z
       LinkProps.mass LinkProps.cogRatio LINKS.UPPER LINKS.FOREARM LINKS.HAND].
  repeat split; apply Vector3_eq; cbn [Vector3.x Vector3.y Vector3.z];
    decimals; field.
Qed.

Lemma moment_bounds (loadMass : R) :
  0 <= loadMass ->
  momentJ2 F loadMass <= GRAVITY * (2.0625 + 0.9 * loadMass)
  /\ momentJ5 F loadMass <= GRAVITY * (0.6 + 0.45 * loadMass)
  /\ momentJ7Y F loadMass <= GRAVITY * (0.075 + 0.15 * loadMass).
Proof.
  intros Hm.
  destruct (firstMoment_pivots loadMass) as (S2 & S5 & S7).
  destruct (xAxis_unit a0 a1 a2 a3 a4 a5 a6 a7 a8) as (Uu & Uf & Ud).
  fold F in Uu, Uf, Ud. fold u in Uu. fold f in Uf. fold d in Ud.
  unfold momentJ2, momentJ5, momentJ7Y.
  repeat split; apply calculateMoment_le; try nra.
  - rewrite S2.
    pose proof (mix_norm_bound u f d (1.4625 + 0.45 * loadMass)
                  (0.525 + 0.3 * loadMass) (0.075 + 0.15 * loadMass)
                  Uu Uf Ud ltac:(nra) ltac:(nra) ltac:(nra)) as H.
    cbv zeta in H. etransitivity; [exact H|]. apply Req_le. decimals. field.
  - rewrite S5.
    pose proof (mix_norm_bound u f d 0
                  (0.525 + 0.3 * loadMass) (0.075 + 0.15 * loadMass)
                  Uu Uf Ud ltac:(nra) ltac:(nra) ltac:(nra)) as H.
    cbv zeta in H. etransitivity; [exact H|]. apply Req_le. decimals. field.
  - rewrite S7.
    pose proof (mix_norm_bound u f d 0 0 (0.075 + 0.15 * loadMass)
                  Uu Uf Ud ltac:(nra) ltac:(nra) ltac:(nra)) as H.
    cbv zeta in H. etransitivity; [exact H|]. apply Req_le. decimals. field.
Qed.

End MomentBounds.

(** X6: under a payload of non-negative mass, no pose gives a larger
    moment at the Shoulder, Elbow or Wrist pivot than the initial pose,
    where the arm is stretched out horizontally: 9.81 (2.0625 + 0.9 m),
    9.81 (0.6 + 0.45 m) and 9.81 (0.075 + 0.15 m). *)
Theorem stretched_arm_is_worst_case (a0 a1 a2 a3 a4 a5 a6 a7 a8 loadMass : R) :
  0 <= loadMass ->
  let F := forwardKinematics a0 a1 a2 a3 a4 a5 a6 a7 a8 in
  momentJ2 F loadMass <= momentJ2 stretched loadMass
  /\ momentJ5 F loadMass <= momentJ5 stretched loadMass
  /\ momentJ7Y F loadMass <= momentJ7Y stretched loadMass
  /\ momentJ2 stretched loadMass = GRAVITY * (2.0625 + 0.9 * loadMass)
  /\ momentJ5 stretched loadMass = GRAVITY * (0.6 + 0.45 * loadMass)
  /\ momentJ7Y stretched loadMass = GRAVITY * (0.075 + 0.15 * loadMass).
Proof.
  intros Hm F.
  destruct (initial_pose_moments loadMass Hm) as (M2 & M5 & M7).
  destruct (moment_bounds a0 a1 a2 a3 a4 a5 a6 a7 a8 loadMass Hm) as (B2 & B5 & B7).
  unfold stretched. rewrite M2, M5, M7. auto 10.
Qed.

Lemma stretched_arm_is_worst_case_witness :
  0 <= 5
  /\ momentJ2 (forwardKinematics 30 (-45) 10 (-120) (-200) 0 20 (-30) 45) 5
     <= GRAVITY * (2.0625 + 0.9 * 5).
Proof.
  split; [lra|].
  destruct (stretched_arm_is_worst_case 30 (-45) 10 (-120) (-200) 0 20 (-30) 45 5
              ltac:(lra)) as (H & _ & _ & E & _).
  rewrite <- E. exact H.
Defined.

(** ** Safety factors and colours over the payload range of the slider *)

Lemma PI_gt_3 : 3 < PI.
Proof. pose proof PI2_3_2. lra. Qed.


Lemma div_lt_iff a b c : 0 < b -> a < c * b -> a / b < c.
Proof.
  intros Hb H. apply (Rmult_lt_reg_r b); [exact Hb|].
  unfold Rdiv. rewrite Rmult_assoc, Rinv_l by lra. lra.
Qed.

Lemma div_le_iff a b c : 0 < b -> a <= c * b -> a / b <= c.
Proof.
  intros Hb H. apply (Rmult_le_reg_r b); [exact Hb|].
  unfold Rdiv. rewrite Rmult_assoc, Rinv_l by lra. lra.
Qed.

Lemma le_div_iff a b c : 0 < b -> a * b <= c -> a <= c / b.
Proof.
  intros Hb H. apply (Rmult_le_reg_r b); [exact Hb|].
  unfold Rdiv. rewrite Rmult_assoc, Rinv_l by lra. lra.
Qed.

Lemma unit_stress_bounds :
  calcStress 1 LINKS.UPPER < 0.3893
  /\ calcStress 1 LINKS.FOREARM < 0.8986
  /\ calcStress 1 LINKS.HAND < 0.8986.
Proof.
  pose proof PI_gt_3 as Hpi.
  unfold calcStress, calculateInertia. cbv zeta.
  cbn [LinkProps.od LinkProps.thickness LINKS.UPPER LINKS.FOREARM LINKS.HAND pow].
  repeat split.
  - apply div_lt_iff; [lra|]. apply div_lt_iff; [nra|]. nra.
  - apply div_lt_iff; [lra|]. apply div_lt_iff; [nra|]. nra.
  - apply div_lt_iff; [lra|]. apply div_lt_iff; [nra|]. nra.
Qed.

(** The safety factor of a positive torque below [tmax]. *)
Lemma safetyFactor_lower torque tmax link cs sf :
  armLink link -> calcStress 1 link < cs ->
  0 < torque -> torque <= tmax -> sf * (tmax * cs) <= 276 -> 0 < sf ->
  0 < calcStress torque link <= 276 / sf
  /\ sf <= AL6061_YIELD_STRENGTH / calcStress torque link.
Proof.
  intros Hl Hcs Ht Htm Hsf Hsf0.
  pose proof (calcStress_unit_pos link Hl) as Hu.
  rewrite (calcStress_scale torque) by exact Hl.
  set (c := calcStress 1 link) in *.
  assert (0 < torque * c) as Hpos by (apply Rmult_lt_0_compat; assumption).
  assert (torque * c <= tmax * cs) as Hle.
  { apply Rmult_le_compat; lra. }
  assert (sf * (torque * c) <= 276) as Hb.
  { apply Rle_trans with (sf * (tmax * cs)); [|exact Hsf].
    apply Rmult_le_compat_l; lra. }
  repeat split.
  - exact Hpos.
  - apply le_div_iff; [exact Hsf0|]. lra.
  - unfold AL6061_YIELD_STRENGTH. apply le_div_iff; [exact Hpos|]. exact Hb.
Qed.

Lemma afterFill_le raw tmax : 0 <= raw <= tmax -> 0.1 <= tmax -> afterFill raw <= tmax.
Proof.
  intros [H0 H1] H. unfold afterFill. destruct (Req_dec_T raw 0); lra.
Qed.

(** The published pivot torques under a payload of 0 to [m] kg. *)
Lemma published_torque_bounds joints F0 a0 a1 a2 a3 a4 a5 a6 a7 a8 loadMass :
  F0 = forwardKinematics a0 a1 a2 a3 a4 a5 a6 a7 a8 ->
  jointIds joints = jointIds initialJoints ->
  0 <= loadMass ->
  let tm := torqueMap joints F0 loadMass in
  0 < readTorque tm "j2" <= GRAVITY * (2.0625 + 0.9 * loadMass)
  /\ 0 < readTorque tm "j5" <= GRAVITY * (0.6 + 0.45 * loadMass)
  /\ 0 < readTorque tm "j7_y" <= GRAVITY * (0.075 + 0.15 * loadMass).
Proof.
  intros -> Hids Hm tm.
  destruct (pivot_torques_positive joints
              (forwardKinematics a0 a1 a2 a3 a4 a5 a6 a7 a8) loadMass Hids)
    as (P2 & P5 & P7).
  destruct (pivots_among_ids joints Hids) as (H2 & H5 & H7).
  destruct (moment_bounds a0 a1 a2 a3 a4 a5 a6 a7 a8 loadMass Hm) as (B2 & B5 & B7).
  fold tm in P2, P5, P7.
  repeat split; try assumption; unfold tm.
  - rewrite torqueMap_j2 by exact H2. apply afterFill_le.
    + split; [apply magnitude_nonneg | exact B2].
    + unfold GRAVITY; nra.
  - rewrite torqueMap_j5 by exact H5. apply afterFill_le.
    + split; [apply magnitude_nonneg | exact B5].
    + unfold GRAVITY; nra.
  - rewrite torqueMap_j7_y by exact H7. apply afterFill_le.
    + split; [apply magnitude_nonneg | exact B7].
    + unfold GRAVITY; nra.
Qed.

Lemma hue_of_low_stress stress :
  0 <= stress <= 46 -> 200 <= hueOf (getStressColor stress) <= 240.
Proof.
  intros [H0 H1]. unfold getStressColor, hueOf, AL6061_YIELD_STRENGTH. cbv zeta.
  rewrite Rmin_left by lra. rewrite Rmax_right by lra. lra.
Qed.

(** X7: with the ids of the initial joints and a payload within the range
    of the payload slider (0 to 10 kg), every pose gives a safety factor of
    at least 6 at each of the three pivots, so none is ever flagged as below
    1.5, and every link colour has a hue from 200 to 240 (blue).  Both
    bounds hold whether a pivot publishes its moment or the placeholder. *)
Theorem safety_factor_at_least_six
    (joints : list JointState.t) (loadMass : R) (trajectory : list Vector3.t) :
  jointIds joints = jointIds initialJoints ->
  0 <= loadMass <= 10 ->
  exists ev,
    renderEffect joints loadMass trajectory = Some ev
    /\ Forall (fun r =>
                 6 <= StressResult.safetyFactor r
                 /\ 200 <= hueOf (StressResult.color r) <= 240)
              (ev_stressResults ev).
Proof.
  intros Hids [Hm0 Hm10].
  destruct (joints_with_initial_ids joints Hids)
    as (j0 & j1 & j2 & j3 & j4 & j5 & j6 & j7 & j8 & j9 & ->).
  eexists; split; [reflexivity|]. cbn [ev_stressResults].
  set (F := forwardKinematics _ _ _ _ _ _ _ _ _).
  set (js := [j0; j1; j2; j3; j4; j5; j6; j7; j8; j9]) in *.
  destruct (published_torque_bounds js F _ _ _ _ _ _ _ _ _ loadMass eq_refl Hids Hm0)
    as ((P2 & B2) & (P5 & B5) & (P7 & B7)).
  destruct unit_stress_bounds as (CU & CF & CH).
  set (tm := torqueMap js F loadMass) in *.
  assert (0 < calcStress (readTorque tm "j2") LINKS.UPPER <= 276 / 6
          /\ 6 <= AL6061_YIELD_STRENGTH / calcStress (readTorque tm "j2") LINKS.UPPER)
    as [S2 F2].
  { apply (safetyFactor_lower _ (GRAVITY * (2.0625 + 0.9 * 10)) _ 0.3893);
      [apply armLink_UPPER | exact CU | exact P2 | unfold GRAVITY in *; lra
      | unfold GRAVITY; lra | lra]. }
  assert (0 < calcStress (readTorque tm "j5") LINKS.FOREARM <= 276 / 6
          /\ 6 <= AL6061_YIELD_STRENGTH / calcStress (readTorque tm "j5") LINKS.FOREARM)
    as [S5 F5].
  { apply (safetyFactor_lower _ (GRAVITY * (0.6 + 0.45 * 10)) _ 0.8986);
      [apply armLink_FOREARM | exact CF | exact P5 | unfold GRAVITY in *; lra
      | unfold GRAVITY; lra | lra]. }
  assert (0 < calcStress (readTorque tm "j7_y") LINKS.HAND <= 276 / 6
          /\ 6 <= AL6061_YIELD_STRENGTH / calcStress (readTorque tm "j7_y") LINKS.HAND)
    as [S7 F7].
  { apply (safetyFactor_lower _ (GRAVITY * (0.075 + 0.15 * 10)) _ 0.8986);
      [apply armLink_HAND | exact CH | exact P7 | unfold GRAVITY in *; lra
      | unfold GRAVITY; lra | lra]. }
  unfold stressResults. cbv zeta.
  repeat (apply Forall_cons_2; [split|]); try apply Forall_nil_2;
    cbn [StressResult.safetyFactor StressResult.color];
    try assumption; apply hue_of_low_stress; lra.
Qed.

Lemma safety_factor_at_least_six_witness :
  jointIds initialJoints = jointIds initialJoints
  /\ 0 <= 10 <= 10
  /\ exists ev,
       renderEffect initialJoints 10 [] = Some ev
       /\ Forall (fun r => 6 <= StressResult.safetyFactor r
                           /\ 200 <= hueOf (StressResult.color r) <= 240)
                 (ev_stressResults ev).
Proof.
  split; [reflexivity|]. split; [lra|].
  apply (safety_factor_at_least_six initialJoints 10 []); [reflexivity | lra].
Defined.

(** X8: the hue of a link colour never leaves 0..240 for a stress that is
    not negative, falls (weakly) as the stress grows, is 240 at no stress and
    0 from the yield strength on. *)
Theorem stress_hue_range_and_order (stress1 stress2 : R) :
  0 <= stress1 -> stress1 <= stress2 ->
  0 <= hueOf (getStressColor stress2) <= hueOf (getStressColor stress1)
  /\ hueOf (getStressColor stress1) <= 240
  /\ hueOf (getStressColor 0) = 240
  /\ (AL6061_YIELD_STRENGTH <= stress2 -> hueOf (getStressColor stress2) = 0).
Proof.
  intros H1 H12. unfold getStressColor, hueOf, AL6061_YIELD_STRENGTH. cbv zeta.
  repeat split.
  - apply Rmax_l.
  - apply Rmax_lub; [apply Rmax_l|].
    eapply Rle_trans; [|apply Rmax_r].
    assert (Rmin (stress1 / 276) 1.2 <= Rmin (stress2 / 276) 1.2).
    { apply Rle_min_compat_r. lra. }
    lra.
  - apply Rmax_lub; [lra|].
    assert (0 <= Rmin (stress1 / 276) 1.2) by (apply Rmin_glb; lra).
    lra.
  - rewrite Rmin_left by lra. rewrite Rmax_right by lra. lra.
  - intros Hy.
    assert (1 <= Rmin (stress2 / 276) 1.2) by (apply Rmin_glb; lra).
    rewrite Rmax_left by lra. reflexivity.
Qed.

Lemma stress_hue_range_and_order_witness :
  0 <= 40 /\ 40 <= 300
  /\ hueOf (getStressColor 300) <= hueOf (getStressColor 40).
Proof.
  split; [lra|]. split; [lra|].
  apply (stress_hue_range_and_order 40 300); lra.
Defined.

(** ** Torque bars *)

Lemma static_ids joints :
  map staticFields joints = map staticFields initialJoints ->
  jointIds joints = jointIds initialJoints.
Proof.
  intros H. unfold jointIds.
  assert (forall js, map JointState.id js
                     = map (fun p => fst (fst (fst (fst (fst p)))))
                           (map staticFields js)) as E
    by (intros js; rewrite map_map; reflexivity).
  rewrite !E, H. reflexivity.
Qed.

Lemma readTorque_other joints F loadMass k :
  jointIds joints = jointIds initialJoints ->
  k ∈ ["j1"; "j3"; "j4"; "j6"; "j7_x"; "j7_z"; "j9"] ->
  readTorque (torqueMap joints F loadMass) k = 0.1.
Proof.
  intros Hids Hk. unfold readTorque.
  rewrite torqueMap_placeholder; [reflexivity| |].
  - rewrite Hids, initialJoints_ids.
    repeat (apply elem_of_cons in Hk as [Hk|Hk];
            [subst k; repeat constructor|]).
    apply elem_of_nil in Hk. destruct Hk.
  - intros Hp.
    repeat (apply elem_of_cons in Hk as [Hk|Hk];
            [subst k;
             repeat (apply elem_of_cons in Hp as [Hp|Hp]; [discriminate Hp|]);
             apply elem_of_nil in Hp; exact Hp|]).
    apply elem_of_nil in Hk. exact Hk.
Qed.

(** Ten joints with the static fields of the initial ones. *)
Lemma static_joints joints :
  map staticFields joints = map staticFields initialJoints ->
  exists a0 t0 v0 a1 t1 v1 a2 t2 v2 a3 t3 v3 a4 t4 v4
         a5 t5 v5 a6 t6 v6 a7 t7 v7 a8 t8 v8 a9 t9 v9,
    joints =
    [ JointState.mk "j1" "Shoulder Z (Yaw)" a0 t0 v0 (-90) 90 axis_z Shoulder;
      JointState.mk "j2" "Shoulder Y (Pitch)" a1 t1 v1 (-90) 90 axis_y Shoulder;
      JointState.mk "j3" "Shoulder X (Roll)" a2 t2 v2 (-45) 45 axis_x Shoulder;
      JointState.mk "j4" "Elbow Z (Yaw)" a3 t3 v3 (-270) (-90) axis_z Elbow;
      JointState.mk "j5" "Elbow Y (Pitch)" a4 t4 v4 (-270) (-90) axis_y Elbow;
      JointState.mk "j6" "Elbow X (Roll)" a5 t5 v5 (-45) 45 axis_x Elbow;
      JointState.mk "j7_x" "Wrist X (Roll)" a6 t6 v6 (-45) 45 axis_x Wrist;
      JointState.mk "j7_y" "Wrist Y (Pitch)" a7 t7 v7 (-45) 45 axis_y Wrist;
      JointState.mk "j7_z" "Wrist Z (Yaw)" a8 t8 v8 (-45) 45 axis_z Wrist;
      JointState.mk "j9" "Gripper" a9 t9 v9 0 100 axis_x Gripper ].
Proof.
  intros H.
  do 10 (destruct joints as [|[? ? ? ? ? ? ? ? ?] joints]; [discriminate H|]).
  destruct joints; [|discriminate H].
  unfold initialJoints, staticFields in H.
  cbn [map JointState.id JointState.name JointState.min JointState.max
       JointState.axis JointState.group] in H.
  injection H; intros; subst.
  repeat eexists.
Qed.

Lemma usage_bar (tm : gmap string R) (j : JointState.t) (lim : R) :
  0 < readTorque tm (JointState.id j) ->
  readTorque tm (JointState.id j) * 100 <= lim * getMaxTorque (JointState.group j) ->
  lim <= 100 ->
  usagePercent tm j
  = readTorque tm (JointState.id j) / getMaxTorque (JointState.group j) * 100
  /\ 0 < usagePercent tm j <= lim
  /\ (lim <= 70 -> usageColor (usagePercent tm j) = bg_green_500).
Proof.
  intros Hpos Hle Hlim. unfold usagePercent. cbv zeta.
  set (T := readTorque tm (JointState.id j)) in *.
  set (M := getMaxTorque (JointState.group j)) in *.
  assert (0 < M) as HM by (unfold M, getMaxTorque; destruct (JointState.group j); lra).
  assert (0 < T / M * 100) as Hq.
  { apply Rmult_lt_0_compat; [|lra]. apply Rdiv_lt_0_compat; assumption. }
  assert (T / M * 100 <= lim) as Hb.
  { replace (T / M * 100) with (T * 100 / M) by (field; lra).
    apply div_le_iff; assumption. }
  rewrite Rmin_right by lra.
  split; [reflexivity|]. split; [lra|].
  intros H70. unfold usageColor.
  destruct (Rgt_dec _ 90); [lra|]. destruct (Rgt_dec _ 70); [lra|]. reflexivity.
Qed.

(** X9: with the static fields of the initial joints and a payload within
    the slider range (0 to 10 kg), no torque bar reaches the 100 % cap in
    any pose: every usage is the plain quotient torque / maximum, positive
    and below 91 %; with a payload of at most 5 kg every bar is green. *)
Theorem torque_bars_never_saturate
    (joints : list JointState.t) (loadMass : R) (trajectory : list Vector3.t) :
  map staticFields joints = map staticFields initialJoints ->
  0 <= loadMass <= 10 ->
  exists ev,
    renderEffect joints loadMass trajectory = Some ev
    /\ Forall (fun j =>
                 let tm := ev_jointTorques ev in
                 usagePercent tm j
                 = readTorque tm (JointState.id j)
                   / getMaxTorque (JointState.group j) * 100
                 /\ 0 < usagePercent tm j < 91
                 /\ (loadMass <= 5 ->
                     usageColor (usagePercent tm j) = bg_green_500))
              joints.
Proof.
  intros Hstatic [Hm0 Hm10].
  pose proof (static_ids joints Hstatic) as Hids.
  destruct (joints_with_initial_ids joints Hids)
    as (j0 & j1 & j2 & j3 & j4 & j5 & j6 & j7 & j8 & j9 & ->).
  eexists; split; [reflexivity|]. cbn [ev_jointTorques].
  set (F := forwardKinematics _ _ _ _ _ _ _ _ _).
  set (js := [j0; j1; j2; j3; j4; j5; j6; j7; j8; j9]) in *.
  destruct (published_torque_bounds js F _ _ _ _ _ _ _ _ _ loadMass eq_refl Hids Hm0)
    as ((P2 & B2) & (P5 & B5) & (P7 & B7)).
  pose proof (readTorque_other js F loadMass) as Hother.
  set (tm := torqueMap js F loadMass) in *.
  assert (forall j lim,
             0 < readTorque tm (JointState.id j) ->
             readTorque tm (JointState.id j) * 100
             <= 90.5 * getMaxTorque (JointState.group j) ->
             (loadMass <= 5 ->
              readTorque tm (JointState.id j) * 100
              <= 70 * getMaxTorque (JointState.group j)) ->
             lim = tt ->
             usagePercent tm j
             = readTorque tm (JointState.id j)
               / getMaxTorque (JointState.group j) * 100
             /\ 0 < usagePercent tm j < 91
             /\ (loadMass <= 5 -> usageColor (usagePercent tm j) = bg_green_500))
    as Hbar.
  { intros j lim Hpos H91 H70 _.
    destruct (usage_bar tm j 90.5 Hpos H91 ltac:(lra)) as (E & [B0 B1] & _).
    split; [exact E|]. split; [lra|].
    intros H5. destruct (usage_bar tm j 70 Hpos (H70 H5) ltac:(lra)) as (_ & _ & G).
    apply G. lra. }
  destruct (static_joints js Hstatic)
    as (a0 & t0 & v0 & a1 & t1 & v1 & a2 & t2 & v2 & a3 & t3 & v3 & a4 & t4 & v4
        & a5 & t5 & v5 & a6 & t6 & v6 & a7 & t7 & v7 & a8 & t8 & v8
        & a9 & t9 & v9 & Hjs).
  rewrite Hjs.
  repeat (apply Forall_cons_2; [|]); try apply Forall_nil_2; cbv zeta;
    apply (Hbar _ tt); try reflexivity;
    cbn [JointState.id JointState.group getMaxTorque];
    try (rewrite Hother by (assumption || (repeat constructor)));
    unfold GRAVITY in *; try lra.
Qed.

Lemma torque_bars_never_saturate_witness :
  map staticFields initialJoints = map staticFields initialJoints
  /\ 0 <= 5 <= 10
  /\ exists ev,
       renderEffect initialJoints 5 [] = Some ev
       /\ Forall (fun j => usageColor (usagePercent (ev_jointTorques ev) j)
                           = bg_green_500) initialJoints.
Proof.
  split; [reflexivity|]. split; [lra|].
  destruct (torque_bars_never_saturate initialJoints 5 [] eq_refl ltac:(lra))
    as (ev & Hev & Hall).
  exists ev. split; [exact Hev|].
  eapply Forall_impl; [exact Hall|].
  intros j (_ & _ & G). apply G. lra.
Defined.

(** ** Joint states over the life of the component *)

Lemma static_imap (f : nat -> JointState.t -> JointState.t) joints :
  (forall i j, staticFields (f i j) = staticFields j) ->
  map staticFields (imap f joints) = map staticFields joints.
Proof.
  intros Hf. change (map staticFields (imap f joints))
    with (staticFields <$> imap f joints).
  rewrite fmap_imap. rewrite (imap_ext _ (const staticFields)).
  - apply imap_const.
  - intros i j _. apply Hf.
Qed.

Lemma simReachable_static s :
  simReachable s -> map staticFields (joints s) = map staticFields initialJoints.
Proof.
  induction 1 as [lt|time s _ IH|id val s _ IH|s _ IH|playing s _ IH];
    cbn [joints animate]; [reflexivity|..|exact IH]; rewrite <- IH.
  - apply static_imap. reflexivity.
  - unfold handleSliderChange. rewrite map_map.
    apply map_ext. intros j. destruct (decide _); reflexivity.
  - unfold resetSimulation. rewrite map_map. reflexivity.
Qed.

(** X10: in every state the component can reach there are the ten joints of
    the initial state, in the same order and with the same id, name, limits,
    axis and group: no tick, slider move, reset or play/pause toggle adds,
    drops, reorders or relabels a joint. *)
Theorem handlers_keep_static_fields (s : SimState) :
  simReachable s ->
  List.length (joints s) = 10%nat
  /\ map staticFields (joints s) = map staticFields initialJoints.
Proof.
  intros H. pose proof (simReachable_static s H) as Hs.
  split; [|exact Hs].
  rewrite <- (length_map staticFields), Hs. reflexivity.
Qed.

Lemma handlers_keep_static_fields_witness :
  let s := animate 16 (mkSimState (handleSliderChange "j2" 30 initialJoints)
                         0 0 true) in
  simReachable s
  /\ map staticFields (joints s) = map staticFields initialJoints.
Proof.
  intros s.
  assert (simReachable s) as Hr.
  { unfold s. apply reachable_animate.
    apply (reachable_toggle true
             (mkSimState (handleSliderChange "j2" 30 initialJoints) 0 0 false)).
    apply (reachable_slider "j2" 30 (mkSimState initialJoints 0 0 false)).
    apply reachable_initial. }
  split; [exact Hr|]. apply (handlers_keep_static_fields s Hr).
Defined.

Lemma resetSimulation_static joints :
  map staticFields joints = map staticFields initialJoints ->
  resetSimulation joints = initialJoints.
Proof.
  intros H.
  destruct (static_joints joints H)
    as (a0 & t0 & v0 & a1 & t1 & v1 & a2 & t2 & v2 & a3 & t3 & v3 & a4 & t4 & v4
        & a5 & t5 & v5 & a6 & t6 & v6 & a7 & t7 & v7 & a8 & t8 & v8
        & a9 & t9 & v9 & ->).
  unfold resetSimulation, initialJoints.
  cbn [map JointState.id JointState.name JointState.min JointState.max
       JointState.axis JointState.group].
  repeat (apply (f_equal2 cons);
          [repeat (destruct (decide _) as [?|?]);
           try reflexivity; exfalso;
           repeat match goal with
                  | H : _ \/ _ |- _ => destruct H
                  | H : ~ (_ \/ _) |- _ =>
                      apply Decidable.not_or in H; destruct H
                  end;
           congruence|]).
  reflexivity.
Qed.

Lemma stretched_end_effector : endEffector stretched = Vector3.mk 0.9 0 0.
Proof.
  unfold stretched. rewrite initial_pose_frames.
  unfold endEffector, extractFrame, get. cbn [endEffectorFrame FrameData.pos nth].
  reflexivity.
Qed.

(** X11: from every state the component can reach, RESET gives back exactly
    the initial joints, and the render effect that follows (on the emptied
    trajectory) puts the end effector at (0.9, 0, 0) and starts the trail
    with that point. *)
Theorem reset_restores_initial_joints (s : SimState) (loadMass : R) :
  simReachable s ->
  resetSimulation (joints s) = initialJoints
  /\ exists ev,
       renderEffect (resetSimulation (joints s)) loadMass [] = Some ev
       /\ ev_endEffector ev = Vector3.mk 0.9 0 0
       /\ ev_trajectory ev = [Vector3.mk 0.9 0 0].
Proof.
  intros H.
  rewrite (resetSimulation_static _ (simReachable_static s H)).
  split; [reflexivity|]. eexists. split; [reflexivity|].
  cbn [ev_endEffector ev_trajectory initialJoints JointState.angle].
  fold stretched. rewrite stretched_end_effector. split; reflexivity.
Qed.

Lemma reset_restores_initial_joints_witness :
  let s := animate 50 (mkSimState (handleSliderChange "j4" (-100) initialJoints)
                         0 0 false) in
  simReachable s /\ resetSimulation (joints s) = initialJoints.
Proof.
  intros s.
  assert (simReachable s) as Hr.
  { unfold s. apply reachable_animate.
    apply (reachable_slider "j4" (-100) (mkSimState initialJoints 0 0 false)).
    apply reachable_initial. }
  split; [exact Hr|]. apply (reset_restores_initial_joints s 5 Hr).
Defined.

Lemma JointState_eq (a b : JointState.t) :
  JointState.id a = JointState.id b ->
  JointState.name a = JointState.name b ->
  JointState.angle a = JointState.angle b ->
  JointState.targetAngle a = JointState.targetAngle b ->
  JointState.velocity a = JointState.velocity b ->
  JointState.min a = JointState.min b ->
  JointState.max a = JointState.max b ->
  JointState.axis a = JointState.axis b ->
  JointState.group a = JointState.group b ->
  a = b.
Proof. destruct a, b; cbn; intros; subst; reflexivity. Qed.

(** The inertia the controller picks for a joint. *)
Lemma stepJoint_paused t dt i j :
  let inertia :=
    match JointState.group j with
    | Shoulder => 2.5 | Elbow => 1.5 | Wrist => 0.5 | Gripper => 1.0
    end in
  let error := JointState.targetAngle j - JointState.angle j in
  let newVelocity :=
    JointState.velocity j
    + (120 * error - 15 * JointState.velocity j) / inertia * dt in
  JointState.targetAngle (stepJoint false t dt i j) = JointState.targetAngle j
  /\ JointState.velocity (stepJoint false t dt i j) = newVelocity
  /\ JointState.angle (stepJoint false t dt i j)
     = JointState.angle j + newVelocity * dt
  /\ staticFields (stepJoint false t dt i j) = staticFields j.
Proof.
  assert (staticFields (stepJoint false t dt i j) = staticFields j) as Hs
    by reflexivity.
  revert Hs. unfold stepJoint. cbv zeta.
  cbn [andb JointState.targetAngle JointState.velocity JointState.angle].
  destruct (JointState.group j);
    repeat (destruct (decide _) as [?|?]; try congruence); repeat split;
    assumption.
Qed.

(** X12: while the animation is paused, a state in which every joint sits
    at its target with no velocity is left as it is by a tick, whatever the
    time step. *)
Theorem rest_state_is_fixed_point (s : SimState) (time : R) :
  isPlayingRef s = false ->
  Forall (fun j => JointState.angle j = JointState.targetAngle j
                   /\ JointState.velocity j = 0) (joints s) ->
  joints (animate time s) = joints s.
Proof.
  intros Hp Hrest. unfold animate. cbn [joints]. rewrite Hp.
  set (dt := Rmin _ _). clearbody dt.
  rewrite (imap_ext _ (fun _ j => j)).
  - change (imap (fun _ j => j) (joints s))
      with (imap (const (fun j : JointState.t => j)) (joints s)).
    rewrite imap_const. apply list_fmap_id.
  - intros i j Hj.
    assert (JointState.angle j = JointState.targetAngle j
            /\ JointState.velocity j = 0) as [Ha Hv].
    { rewrite Forall_forall in Hrest. apply Hrest.
      eapply list_elem_of_lookup_2. exact Hj. }
    destruct (stepJoint_paused (timeRef s) dt i j) as (T & V & A & S).
    cbv zeta in V, A. rewrite Hv, Ha in V, A.
    apply JointState_eq; try reflexivity; try assumption.
    + rewrite A, Ha. unfold Rdiv. ring.
    + rewrite V, Hv. unfold Rdiv. ring.
Qed.

Lemma rest_state_is_fixed_point_witness :
  joints (animate 16 (mkSimState initialJoints 0 0 false)) = initialJoints.
Proof.
  apply (rest_state_is_fixed_point (mkSimState initialJoints 0 0 false) 16).
  - reflexivity.
  - repeat (apply Forall_cons_2; [split; reflexivity|]). apply Forall_nil_2.
Defined.

(** ** The animation and the controller *)

Lemma stepJoint_playing t dt i j :
  JointState.targetAngle (stepJoint true t dt i j)
  = (if bool_decide (JointState.group j = Gripper)
     then JointState.targetAngle j
     else (JointState.max j + JointState.min j) / 2
          + sin (t * 1.5 + INR i * 0.5)
            * ((JointState.max j - JointState.min j) * 0.15)).
Proof.
  unfold stepJoint. cbv zeta. cbn [andb JointState.targetAngle].
  destruct (bool_decide (JointState.group j = Gripper)); reflexivity.
Qed.

(** X13: while the animation plays, the target a tick gives a joint other
    than the gripper stays within the middle 30 % of the joint's range, so
    within its limits, whatever the clock; the gripper keeps the target the
    slider gave it. *)
Theorem animated_targets_within_limits (s : SimState) (time : R) :
  simReachable s -> isPlayingRef s = true ->
  Forall2 (fun j j' =>
             if bool_decide (JointState.group j = Gripper)
             then JointState.targetAngle j' = JointState.targetAngle j
             else JointState.min j + 0.35 * (JointState.max j - JointState.min j)
                  <= JointState.targetAngle j'
                  <= JointState.max j - 0.35 * (JointState.max j - JointState.min j)
                  /\ JointState.min j <= JointState.targetAngle j' <= JointState.max j)
          (joints s) (joints (animate time s)).
Proof.
  intros Hr Hp. pose proof (simReachable_static s Hr) as Hs.
  assert (Forall (fun j => JointState.min j <= JointState.max j) (joints s)) as Hlim.
  { destruct (static_joints _ Hs)
      as (a0 & t0 & v0 & a1 & t1 & v1 & a2 & t2 & v2 & a3 & t3 & v3 & a4 & t4 & v4
          & a5 & t5 & v5 & a6 & t6 & v6 & a7 & t7 & v7 & a8 & t8 & v8
          & a9 & t9 & v9 & ->).
    repeat (apply Forall_cons_2; [cbn [JointState.min JointState.max]; lra|]).
    apply Forall_nil_2. }
  unfold animate. cbn [joints]. rewrite Hp.
  set (clock := timeRef s + _). clearbody clock.
  set (dt := Rmin _ _). clearbody dt.
  apply Forall2_same_length_lookup. split; [rewrite length_imap; reflexivity|].
  intros i j j' Hj Hj'.
  rewrite list_lookup_imap, Hj in Hj'. injection Hj' as <-.
  rewrite stepJoint_playing.
  destruct (bool_decide (JointState.group j = Gripper)); [reflexivity|].
  assert (JointState.min j <= JointState.max j) as Hle.
  { rewrite Forall_forall in Hlim. apply Hlim.
    eapply list_elem_of_lookup_2. exact Hj. }
  pose proof (SIN_bound (clock * 1.5 + INR i * 0.5)) as [Hlo Hhi].
  set (sn := sin _) in *.
  assert (0 <= (JointState.max j - JointState.min j) * 0.15) as Hamp by lra.
  assert (- ((JointState.max j - JointState.min j) * 0.15)
          <= sn * ((JointState.max j - JointState.min j) * 0.15)
          <= (JointState.max j - JointState.min j) * 0.15) as [H1 H2] by nra.
  lra.
Qed.

Lemma animated_targets_within_limits_witness :
  let s := mkSimState initialJoints 0 0 true in
  simReachable s /\ isPlayingRef s = true
  /\ Forall2 (fun j j' =>
             if bool_decide (JointState.group j = Gripper)
             then JointState.targetAngle j' = JointState.targetAngle j
             else JointState.min j + 0.35 * (JointState.max j - JointState.min j)
                  <= JointState.targetAngle j'
                  <= JointState.max j - 0.35 * (JointState.max j - JointState.min j)
                  /\ JointState.min j <= JointState.targetAngle j' <= JointState.max j)
          (joints s) (joints (animate 16 s)).
Proof.
  intros s.
  assert (simReachable s) as Hr.
  { apply (reachable_toggle true (mkSimState initialJoints 0 0 false)).
    apply reachable_initial. }
  split; [exact Hr|]. split; [reflexivity|].
  apply (animated_targets_within_limits s 16 Hr). reflexivity.
Defined.

Lemma capped_step s time :
  0.1 <= (time - lastTime s) / 1000 ->
  isPlayingRef s = false ->
  joints (animate time s) = imap (stepJoint false (timeRef s) 0.1) (joints s).
Proof.
  intros Hgap Hp. unfold animate. cbn [joints]. rewrite Hp.
  rewrite Rmin_right by exact Hgap. reflexivity.
Qed.

(** X14: with the animation paused and frames at least 100 ms apart (the
    capped time step), a tick takes the error of an Elbow joint to exactly
    one fifth of what it was, whatever the velocity, and leaves the velocity
    at 8 times the old error per second. *)
Theorem elbow_error_contracts_at_capped_step
    (s : SimState) (time : R) (i : nat) (j : JointState.t) :
  0.1 <= (time - lastTime s) / 1000 ->
  isPlayingRef s = false ->
  joints s !! i = Some j ->
  JointState.group j = Elbow ->
  exists j',
    joints (animate time s) !! i = Some j'
    /\ staticFields j' = staticFields j
    /\ JointState.targetAngle j' = JointState.targetAngle j
    /\ JointState.targetAngle j' - JointState.angle j'
       = 0.2 * (JointState.targetAngle j - JointState.angle j)
    /\ JointState.velocity j'
       = 8 * (JointState.targetAngle j - JointState.angle j).
Proof.
  intros Hgap Hp Hj Hg. rewrite capped_step by assumption.
  rewrite list_lookup_imap, Hj. cbn [fmap option_fmap option_map].
  eexists; split; [reflexivity|].
  destruct (stepJoint_paused (timeRef s) 0.1 i j) as (T & V & A & S).
  rewrite Hg in V, A. cbv zeta in V, A.
  split; [exact S|]. split; [exact T|].
  rewrite T, A, V. split; decimals; field.
Qed.

Lemma elbow_error_contracts_at_capped_step_witness :
  let j := JointState.mk "j5" "Elbow Y (Pitch)" (-180) (-100) 0 (-270) (-90)
             axis_y Elbow in
  let s := mkSimState (handleSliderChange "j5" (-100) initialJoints) 0 0 false in
  exists j',
    joints (animate 250 s) !! 4%nat = Some j'
    /\ JointState.targetAngle j' - JointState.angle j' = 0.2 * (-100 - -180).
Proof.
  intros j s.
  destruct (elbow_error_contracts_at_capped_step s 250 4 j)
    as (j' & H1 & _ & _ & H2 & _).
  - cbn [s lastTime]. lra.
  - reflexivity.
  - reflexivity.
  - reflexivity.
  - exists j'. split; [exact H1|]. exact H2.
Defined.

(** X15: with the animation paused and frames at least 100 ms apart, a
    Wrist joint whose error and velocity do not point towards each other
    (for instance a joint at rest away from its target) ends the tick with
    an error at least 1.4 times as large, on the other side of the target,
    and again with a velocity that does not point towards the target: the
    capped step does not keep the wrist controller from diverging. *)
Theorem wrist_error_grows_at_capped_step
    (s : SimState) (time : R) (i : nat) (j : JointState.t) :
  0.1 <= (time - lastTime s) / 1000 ->
  isPlayingRef s = false ->
  joints s !! i = Some j ->
  JointState.group j = Wrist ->
  0 <= (JointState.angle j - JointState.targetAngle j) * JointState.velocity j ->
  exists j',
    joints (animate time s) !! i = Some j'
    /\ isPlayingRef (animate time s) = false
    /\ JointState.group j' = Wrist
    /\ JointState.targetAngle j' = JointState.targetAngle j
    /\ 1.4 * Rabs (JointState.angle j - JointState.targetAngle j)
       <= Rabs (JointState.angle j' - JointState.targetAngle j')
    /\ (JointState.angle j' - JointState.targetAngle j')
       * (JointState.angle j - JointState.targetAngle j) <= 0
    /\ 0 <= (JointState.angle j' - JointState.targetAngle j')
            * JointState.velocity j'.
Proof.
  intros Hgap Hp Hj Hg Hxv. rewrite capped_step by assumption.
  rewrite list_lookup_imap, Hj. cbn [fmap option_fmap option_map].
  eexists; split; [reflexivity|].
  split; [exact Hp|].
  destruct (stepJoint_paused (timeRef s) 0.1 i j) as (T & V & A & S).
  rewrite Hg in V, A. cbv zeta in V, A.
  split; [exact (eq_trans (f_equal snd S) Hg)|]. split; [exact T|].
  set (x := JointState.angle j - JointState.targetAngle j) in *.
  set (v := JointState.velocity j) in *.
  assert (JointState.velocity (stepJoint false (timeRef s) 0.1 i j)
          = - 24 * x - 2 * v) as V'
    by (rewrite V; unfold x; decimals; field).
  assert (JointState.angle (stepJoint false (timeRef s) 0.1 i j)
          - JointState.targetAngle (stepJoint false (timeRef s) 0.1 i j)
          = - 1.4 * x - 0.2 * v) as X'
    by (rewrite T, A; unfold x; decimals; field).
  rewrite X', V'.
  split; [|split; [nra|nra]].
  unfold Rabs. destruct (Rcase_abs x), (Rcase_abs (-1.4 * x - 0.2 * v)); nra.
Qed.

Lemma wrist_error_grows_at_capped_step_witness :
  let j := JointState.mk "j7_y" "Wrist Y (Pitch)" 0 10 0 (-45) 45 axis_y Wrist in
  let s := mkSimState (handleSliderChange "j7_y" 10 initialJoints) 0 0 false in
  exists j',
    joints (animate 100 s) !! 7%nat = Some j'
    /\ 1.4 * Rabs (0 - 10) <= Rabs (JointState.angle j' - JointState.targetAngle j').
Proof.
  intros j s.
  destruct (wrist_error_grows_at_capped_step s 100 7 j)
    as (j' & H1 & _ & _ & _ & H2 & _).
  - cbn [s lastTime]. lra.
  - reflexivity.
  - reflexivity.
  - reflexivity.
  - cbn [j JointState.angle JointState.targetAngle JointState.velocity]. lra.
  - exists j'. split; [exact H1|]. exact H2.
Defined.

(** ** Slider moves *)

(** X16: while the animation plays, moving the slider of a joint that is
    not the gripper changes nothing in the next tick: the animation
    overwrites the target before the controller reads it. *)
Theorem slider_ignored_while_playing
    (s : SimState) (id : string) (val time : R) :
  isPlayingRef s = true ->
  Forall (fun j => JointState.id j = id -> JointState.group j <> Gripper)
         (joints s) ->
  animate time (mkSimState (handleSliderChange id val (joints s))
                  (lastTime s) (timeRef s) (isPlayingRef s))
  = animate time s.
Proof.
  intros Hp Hng. unfold animate.
  cbn [joints lastTime timeRef isPlayingRef]. rewrite Hp.
  f_equal. unfold handleSliderChange.
  change (map ?g (joints s)) with (g <$> joints s).
  rewrite imap_fmap. apply imap_ext. intros i j Hj. cbn [compose].
  destruct (decide (JointState.id j = id)) as [Hid|Hid]; [|reflexivity].
  assert (JointState.group j <> Gripper) as Hg.
  { rewrite Forall_forall in Hng. apply Hng; [|exact Hid].
    eapply list_elem_of_lookup_2. exact Hj. }
  unfold stepJoint. cbv zeta.
  cbn [JointState.id JointState.name JointState.angle JointState.targetAngle
       JointState.velocity JointState.min JointState.max JointState.axis
       JointState.group].
  rewrite bool_decide_eq_false_2 by exact Hg. reflexivity.
Qed.

Lemma slider_ignored_while_playing_witness :
  let s := mkSimState initialJoints 0 0 true in
  animate 16 (mkSimState (handleSliderChange "j2" 60 initialJoints) 0 0 true)
  = animate 16 s.
Proof.
  intros s. apply (slider_ignored_while_playing s "j2" 60 16).
  - reflexivity.
  - repeat (apply Forall_cons_2;
            [cbn [JointState.id JointState.group]; congruence|]).
    apply Forall_nil_2.
Defined.



(** ** The trail *)

Lemma nearLast_true prev ee :
  nearLast prev ee = true <-> exists l, last prev = Some l /\ near l ee.
Proof.
  unfold nearLast, near. destruct (last prev) as [l|].
  - destruct (Rlt_dec _ _), (Rlt_dec _ _); cbn [andb]; split;
      try discriminate; try (intros _; eexists; split; [reflexivity|]; tauto);
      intros (l' & [= <-] & H1 & H2); tauto.
  - split; [discriminate|]. intros (l & H & _). discriminate H.
Qed.

Lemma adjacentApart_snoc l a :
  adjacentApart l ->
  (forall b, last l = Some b -> ~ near b a) ->
  adjacentApart (l ++ [a]).
Proof.
  induction l as [|x [|y l] IH]; intros Hl Hlast.
  - exact I.
  - cbn. split; [|exact I]. apply Hlast. reflexivity.
  - destruct Hl as [Hxy Hl]. cbn [app adjacentApart]. split; [exact Hxy|].
    apply IH; [exact Hl|]. intros b Hb. apply Hlast. exact Hb.
Qed.

Lemma adjacentApart_tail a l : adjacentApart (a :: l) -> adjacentApart l.
Proof. destruct l; [intros; exact I | intros [_ H]; exact H]. Qed.

Lemma adjacentApart_drop n l : adjacentApart l -> adjacentApart (drop n l).
Proof.
  revert l. induction n as [|n IH]; intros l Hl; [rewrite drop_0; exact Hl|].
  destruct l as [|a l]; [exact I|]. cbn [drop].
  apply IH. eapply adjacentApart_tail. exact Hl.
Qed.

(** X18: in every trail the component can hold, no two consecutive points
    are less than 5 mm apart in both x and y. *)
Theorem trail_neighbours_are_apart (trail : list Vector3.t) :
  trajectoryReachable trail -> adjacentApart trail.
Proof.
  induction 1 as [|prev ee _ IH]; [exact I|].
  unfold updateTrajectory.
  destruct (nearLast prev ee) eqn:Hn; [exact IH|].
  unfold sliceLast. apply adjacentApart_drop.
  apply adjacentApart_snoc; [exact IH|].
  intros b Hb Hnear.
  assert (nearLast prev ee = true) as Ht
    by (apply nearLast_true; exists b; split; assumption).
  rewrite Ht in Hn. discriminate Hn.
Qed.

Lemma trail_neighbours_are_apart_witness :
  let trail := updateTrajectory (updateTrajectory [] (Vector3.mk 0.9 0 0))
                 (Vector3.mk 0.8 0.1 0.2) in
  trajectoryReachable trail /\ adjacentApart trail.
Proof.
  intros trail.
  assert (trajectoryReachable trail) as Hr.
  { apply trajectory_update. apply trajectory_update. apply trajectory_empty. }
  split; [exact Hr|]. apply (trail_neighbours_are_apart trail Hr).
Defined.

Lemma last_drop {A : Type} (n : nat) (l : list A) :
  (n < List.length l)%nat -> last (drop n l) = last l.
Proof.
  revert l. induction n as [|n IH]; intros l Hn; [rewrite drop_0; reflexivity|].
  destruct l as [|a l]; [cbn in Hn; lia|]. cbn [drop].
  rewrite IH by (cbn in Hn; lia).
  destruct l; [cbn in Hn; lia | reflexivity].
Qed.

(** X19: after every update the trail is not empty and its newest point is
    the current end effector or lies less than 5 mm from it in x and y; the
    height plays no part, so a purely vertical move of the end effector adds
    no point. *)
Theorem trail_ends_at_end_effector (prev : list Vector3.t) (ee : Vector3.t) :
  exists l,
    last (updateTrajectory prev ee) = Some l
    /\ (l = ee \/ (near l ee /\ updateTrajectory prev ee = prev)).
Proof.
  unfold updateTrajectory. destruct (nearLast prev ee) eqn:Hn.
  - apply nearLast_true in Hn as (l & Hl & Hnear).
    exists l. split; [exact Hl|]. right. split; [exact Hnear | reflexivity].
  - exists ee. split; [|left; reflexivity].
    unfold sliceLast. rewrite last_drop.
    + apply last_snoc.
    + rewrite length_app. cbn [List.length]. lia.
Qed.

(** ** The camera *)

Lemma clamp_range lo hi x : lo <= hi -> lo <= Rmax lo (Rmin hi x) <= hi.
Proof.
  intros H. split; [apply Rmax_l|].
  apply Rmax_lub; [exact H | apply Rmin_l].
Qed.

(** X20: in every view the component can reach, whatever the wheel and
    mouse events were, the zoom scale lies between 50 and 3000 and the
    elevation between -89 and 89 degrees. *)
Theorem camera_stays_in_range (v : View) :
  viewReachable v ->
  50 <= Camera.scale (camera v) <= 3000
  /\ -89 <= Camera.elev (camera v) <= 89.
Proof.
  induction 1 as [|deltaY v _ IH|e v _ IH|e v _ IH|v _ IH|v _ IH].
  - cbn. lra.
  - cbn [camera onWheel Camera.scale Camera.elev].
    split; [apply clamp_range; lra | apply IH].
  - exact IH.
  - unfold handleMouseMove.
    destruct (isDragging v); cbn [negb]; [|exact IH].
    destruct (lastMousePos v) as [[lastX lastY]|]; [|exact IH].
    destruct (interactionMode v) as [[|]|];
      cbn [camera Camera.scale Camera.elev]; try exact IH.
    split; [apply IH | apply clamp_range; lra].
  - exact IH.
  - cbn. lra.
Qed.

Lemma camera_stays_in_range_witness :
  let v := handleMouseMove (MouseEvent.mk 10 900 0 false)
             (handleMouseDown (MouseEvent.mk 0 0 0 false)
                (mkView (onWheel 10000 initialCamera) false None None)) in
  viewReachable v
  /\ 50 <= Camera.scale (camera v) <= 3000
  /\ -89 <= Camera.elev (camera v) <= 89.
Proof.
  intros v.
  assert (viewReachable v) as Hr.
  { unfold v. apply view_move. apply view_down.
    apply (view_wheel 10000 initialView). apply view_initial. }
  split; [exact Hr|]. apply (camera_stays_in_range v Hr).
Defined.

Lemma turn_preserves_norm c s x y :
  c * c + s * s = 1 ->
  (x * c - y * s) * (x * c - y * s) + (x * s + y * c) * (x * s + y * c)
  = x * x + y * y.
Proof.
  intros H.
  replace ((x * c - y * s) * (x * c - y * s) + (x * s + y * c) * (x * s + y * c))
    with ((x * x + y * y) * (c * c + s * s)) by ring.
  rewrite H. ring.
Qed.

(** X21: the projection is a rotation followed by a scaling and a shift:
    for two world points, the squared screen distance plus the squared
    scaled depth difference is the squared world distance times the squared
    scale.  So on screen two points are never farther apart than scale times
    their distance in the world. *)
Theorem project_preserves_distances
    (cam : Camera.t) (w h : R) (v1 v2 : Vector3.t) :
  let p := project cam w h v1 in
  let q := project cam w h v2 in
  let k := Camera.scale cam in
  (Vector3.x p - Vector3.x q) * (Vector3.x p - Vector3.x q)
  + (Vector3.y p - Vector3.y q) * (Vector3.y p - Vector3.y q)
  + (k * (Vector3.z p - Vector3.z q)) * (k * (Vector3.z p - Vector3.z q))
  = k * k * dot (vsub v1 v2) (vsub v1 v2)
  /\ (Vector3.x p - Vector3.x q) * (Vector3.x p - Vector3.x q)
     + (Vector3.y p - Vector3.y q) * (Vector3.y p - Vector3.y q)
     <= k * k * dot (vsub v1 v2) (vsub v1 v2).
Proof.
  intros p q k.
  assert ((Vector3.x p - Vector3.x q) * (Vector3.x p - Vector3.x q)
          + (Vector3.y p - Vector3.y q) * (Vector3.y p - Vector3.y q)
          + (k * (Vector3.z p - Vector3.z q)) * (k * (Vector3.z p - Vector3.z q))
          = k * k * dot (vsub v1 v2) (vsub v1 v2)) as E.
  { unfold p, q, k, project, dot, vsub. cbv zeta.
    cbn [Vector3.x Vector3.y Vector3.z].
    destruct v1 as [x1 y1 z1], v2 as [x2 y2 z2].
    cbn [Vector3.x Vector3.y Vector3.z].
    set (ca := cos (toRad (Camera.azim cam))).
    set (sa := sin (toRad (Camera.azim cam))).
    set (ce := cos (toRad (Camera.elev cam))).
    set (se := sin (toRad (Camera.elev cam))).
    set (kk := Camera.scale cam).
    assert (ca * ca + sa * sa = 1) as Ha
      by (unfold ca, sa; apply sin_cos_sqr).
    assert (ce * ce + se * se = 1) as He
      by (unfold ce, se; apply sin_cos_sqr).
    set (dx := x1 - x2). set (dy := y1 - y2). set (dz := z1 - z2).
    pose proof (turn_preserves_norm ca sa dx dy Ha) as T1.
    pose proof (turn_preserves_norm ce se dz (dx * ca - dy * sa) He) as T2.
    replace (w / 2 + (x1 * sa + y1 * ca) * kk + Camera.panX cam
             - (w / 2 + (x2 * sa + y2 * ca) * kk + Camera.panX cam))
      with (kk * (dx * sa + dy * ca)) by (unfold dx, dy; ring).
    replace (h / 1.5 - (z1 * ce - (x1 * ca - y1 * sa) * se) * kk + Camera.panY cam
             - (h / 1.5 - (z2 * ce - (x2 * ca - y2 * sa) * se) * kk
                + Camera.panY cam))
      with (- kk * (dz * ce - (dx * ca - dy * sa) * se)) by (unfold dx, dy, dz; ring).
    replace (z1 * se + (x1 * ca - y1 * sa) * ce
             - (z2 * se + (x2 * ca - y2 * sa) * ce))
      with (dz * se + (dx * ca - dy * sa) * ce) by (unfold dx, dy, dz; ring).
    transitivity
      (kk * kk * ((dx * sa + dy * ca) * (dx * sa + dy * ca)
                  + ((dz * ce - (dx * ca - dy * sa) * se)
                     * (dz * ce - (dx * ca - dy * sa) * se)
                     + (dz * se + (dx * ca - dy * sa) * ce)
                       * (dz * se + (dx * ca - dy * sa) * ce)))); [ring|].
    rewrite T2.
    replace ((dx * sa + dy * ca) * (dx * sa + dy * ca)
             + (dz * dz + (dx * ca - dy * sa) * (dx * ca - dy * sa)))
      with ((dx * ca - dy * sa) * (dx * ca - dy * sa)
            + (dx * sa + dy * ca) * (dx * sa + dy * ca) + dz * dz) by ring.
    rewrite T1. ring. }
  split; [exact E|].
  pose proof (Rle_0_sqr (k * (Vector3.z p - Vector3.z q))) as Hz.
  unfold Rsqr in Hz. lra.
Qed.

(** X22: a drag started with the middle button, or with the left button
    and Shift held, moves the picture with the pointer: after the first
    move event every projected point is shifted by exactly the pointer's
    offset since the button went down, at the same depth, and the drag goes
    on in pan mode from the new pointer position. *)
Theorem pan_drag_moves_picture_with_pointer
    (e0 e1 : MouseEvent.t) (v0 : View) (w h : R) (p : Vector3.t) :
  MouseEvent.button e0 = 1%Z
  \/ (MouseEvent.button e0 = 0%Z /\ MouseEvent.shiftKey e0 = true) ->
  let v1 := handleMouseMove e1 (handleMouseDown e0 v0) in
  project (camera v1) w h p
  = vadd (project (camera v0) w h p)
         (Vector3.mk (MouseEvent.clientX e1 - MouseEvent.clientX e0)
                     (MouseEvent.clientY e1 - MouseEvent.clientY e0) 0)
  /\ isDragging v1 = true
  /\ interactionMode v1 = Some pan
  /\ lastMousePos v1 = Some (MouseEvent.clientX e1, MouseEvent.clientY e1).
Proof.
  intros Hb v1.
  assert (interactionMode (handleMouseDown e0 v0) = Some pan) as Hm.
  { unfold handleMouseDown. cbn [interactionMode].
    destruct Hb as [-> | [-> ->]]; reflexivity. }
  unfold v1, handleMouseMove. rewrite Hm.
  cbn [handleMouseDown isDragging negb lastMousePos camera interactionMode].
  repeat split.
  unfold project, vadd. cbv zeta.
  cbn [Camera.azim Camera.elev Camera.scale Camera.panX Camera.panY
       Vector3.x Vector3.y Vector3.z].
  apply Vector3_eq; cbn [Vector3.x Vector3.y Vector3.z]; ring.
Qed.

Lemma pan_drag_moves_picture_with_pointer_witness :
  let e0 := MouseEvent.mk 100 100 1 false in
  let e1 := MouseEvent.mk 130 90 1 false in
  (MouseEvent.button e0 = 1%Z
   \/ (MouseEvent.button e0 = 0%Z /\ MouseEvent.shiftKey e0 = true))
  /\ project (camera (handleMouseMove e1 (handleMouseDown e0 initialView)))
       800 500 (Vector3.mk 0.9 0 0)
     = vadd (project initialCamera 800 500 (Vector3.mk 0.9 0 0))
            (Vector3.mk (130 - 100) (90 - 100) 0).
Proof.
  intros e0 e1.
  assert (MouseEvent.button e0 = 1%Z
          \/ (MouseEvent.button e0 = 0%Z /\ MouseEvent.shiftKey e0 = true)) as Hb
    by (left; reflexivity).
  split; [exact Hb|].
  apply (pan_drag_moves_picture_with_pointer e0 e1 initialView 800 500
           (Vector3.mk 0.9 0 0) Hb).
Defined.

(** ** The gripper *)




(** X24: in every state the component can reach the gripper joint is
    found, so the fallback opening of 0.02 is never used: the opening is the
    gripper angle times 0.0004, which in the initial state is that same
    0.02. *)
Theorem gripper_joint_is_always_found (s : SimState) :
  simReachable s ->
  exists g,
    joints s !! 9%nat = Some g
    /\ gripperJ (joints s) = Some g
    /\ openDist (joints s) = JointState.angle g * 0.0004
    /\ openDist initialJoints = 0.02.
Proof.
  intros Hr.
  destruct (static_joints _ (simReachable_static s Hr))
    as (a0 & t0 & v0 & a1 & t1 & v1 & a2 & t2 & v2 & a3 & t3 & v3 & a4 & t4 & v4
        & a5 & t5 & v5 & a6 & t6 & v6 & a7 & t7 & v7 & a8 & t8 & v8
        & a9 & t9 & v9 & ->).
  eexists. split; [reflexivity|].
  assert (forall js, gripperJ js
                     = List.find (fun j => bool_decide (JointState.id j = "j9")) js)
    as Hfind by reflexivity.
  unfold openDist. rewrite !Hfind.
  cbn [List.find JointState.id initialJoints].
  repeat (rewrite bool_decide_eq_false_2 by discriminate).
  rewrite !bool_decide_eq_true_2 by reflexivity.
  cbn [JointState.angle]. split; [reflexivity|]. split; [lra|].
  replace (gripperJ initialJoints)
    with (Some (JointState.mk "j9" "Gripper" 50 50 0 0 100 axis_x Gripper))
    by reflexivity.
  cbn [JointState.angle]. lra.
Qed.

Lemma gripper_joint_is_always_found_witness :
  let s := mkSimState (handleSliderChange "j9" 80 initialJoints) 0 0 false in
  simReachable s
  /\ exists g, gripperJ (joints s) = Some g
               /\ openDist (joints s) = JointState.angle g * 0.0004.
Proof.
  intros s.
  assert (simReachable s) as Hr.
  { apply (reachable_slider "j9" 80 (mkSimState initialJoints 0 0 false)).
    apply reachable_initial. }
  split; [exact Hr|].
  destruct (gripper_joint_is_always_found s Hr) as (g & _ & H1 & H2 & _).
  exists g. split; [exact H1 | exact H2].
Defined.

(** ** The matrix helpers *)

(** X25: on the sixteen entries the program reads, the matrix product has
    the identity as neutral element on both sides and is associative, so
    the chain of transforms does not depend on how its products are
    grouped. *)
Theorem matrix_product_laws (A B C : Matrix4x4) :
  meq (multiplyMatrices identity A) A
  /\ meq (multiplyMatrices A identity) A
  /\ meq (multiplyMatrices (multiplyMatrices A B) C)
         (multiplyMatrices A (multiplyMatrices B C)).
Proof.
  repeat split; intros r c Hr Hc.
  - rewrite get_multiplyMatrices by assumption.
    destruct r as [|[|[|[|r]]]]; try lia; unfold identity, get at 1 3 5 7;
      cbn [nth]; ring.
  - rewrite get_multiplyMatrices by assumption.
    destruct c as [|[|[|[|c]]]]; try lia; unfold identity, get at 2 4 6 8;
      cbn [nth]; ring.
  - rewrite (get_multiplyMatrices _ C) by assumption.
    rewrite (get_multiplyMatrices A (multiplyMatrices B C)) by assumption.
    rewrite !(get_multiplyMatrices A B) by (assumption || lia).
    rewrite !(get_multiplyMatrices B C) by (assumption || lia).
    ring.
Qed.

(** X26: two rotations about the same axis compose to the rotation by the
    sum of the angles, a rotation by the opposite angle undoes a rotation,
    and two translations along X compose to the translation by the sum. *)
Theorem rotations_about_one_axis_add (a b : R) :
  meq (multiplyMatrices (rotateX a) (rotateX b)) (rotateX (a + b))
  /\ meq (multiplyMatrices (rotateY a) (rotateY b)) (rotateY (a + b))
  /\ meq (multiplyMatrices (rotateZ a) (rotateZ b)) (rotateZ (a + b))
  /\ meq (multiplyMatrices (rotateZ a) (rotateZ (- a))) identity
  /\ meq (multiplyMatrices (translate a 0 0) (translate b 0 0))
         (translate (a + b) 0 0).
Proof.
  pose proof (sin_cos_sqr a) as Hsq.
  repeat split; sixteen; entries;
    rewrite ?cos_plus, ?sin_plus, ?cos_neg, ?sin_neg; try ring; nra.
Qed.

(** ** Tubes *)

Lemma calculateInertia_pos od thickness :
  0 < thickness < od -> 0 < calculateInertia od thickness.
Proof.
  intros [Ht Hod]. unfold calculateInertia. cbv zeta.
  apply Rdiv_lt_0_compat; [|lra].
  apply Rmult_lt_0_compat; [apply PI_RGT_0|].
  set (i := od - 2 * thickness).
  replace (od ^ 4 - i ^ 4)
    with ((od - i) * (od + i) * (od * od + i * i)) by ring.
  assert (0 < od - i) by (unfold i; lra).
  assert (0 < od + i) by (unfold i; lra).
  assert (0 < od * od + i * i) by nra.
  apply Rmult_lt_0_compat; [apply Rmult_lt_0_compat|]; assumption.
Qed.

(** X27: for every tube with a wall of positive thickness below the outer
    diameter, the area moment of inertia is positive, and a positive torque
    gives a positive stress that grows in proportion to the torque. *)
Theorem stress_of_valid_tube (torque : R) (link : LinkProps.t) :
  0 < LinkProps.thickness link < LinkProps.od link ->
  0 < torque ->
  0 < calculateInertia (LinkProps.od link) (LinkProps.thickness link)
  /\ 0 < calcStress torque link
  /\ forall k, calcStress (k * torque) link = k * calcStress torque link.
Proof.
  intros Hw Ht.
  pose proof (calculateInertia_pos _ _ Hw) as HI.
  assert (armLink link) as Hl by (split; [lra | exact HI]).
  split; [exact HI|]. split; [apply calcStress_pos; assumption|].
  intros k. rewrite (calcStress_scale (k * torque)), (calcStress_scale torque)
    by exact Hl. ring.
Qed.

Lemma stress_of_valid_tube_witness :
  0 < LinkProps.thickness LINKS.UPPER < LinkProps.od LINKS.UPPER
  /\ 0 < 64
  /\ 0 < calcStress 64 LINKS.UPPER.
Proof.
  assert (0 < LinkProps.thickness LINKS.UPPER < LinkProps.od LINKS.UPPER) as Hw
    by (cbn [LinkProps.thickness LinkProps.od LINKS.UPPER]; lra).
  split; [exact Hw|]. split; [lra|].
  apply (stress_of_valid_tube 64 LINKS.UPPER Hw). lra.
Defined.
